(** * JsiDomNode: the node tree of the Skia reconciler

    A shallow embedding of [package/cpp/rnskia/dom/base/JsiDomNode.h].

    Nodes are C++ objects held through [std::shared_ptr], so one node can be
    reached from several places at once.  The embedding therefore keeps an
    explicit store of node objects indexed by address, and a node handle is
    either null or an address.  Every method takes the address of its
    receiver and the store, and returns the new store.  A method that
    dereferences a null handle, or an address that holds no object, has no
    defined behaviour in C++: it returns [None] here.

    The class calls out of itself in three places: the dispose callback,
    the virtual [defineProperties] hook and the methods of
    [NodePropsContainer].  Their bodies are not part of the class, so each
    such call is recorded as an event in a trace, in program order; the
    called code is taken to return and not to call back into the node.

    The [JSI_HOST_FUNCTION] wrappers only unpack their arguments and call
    the native method of the same name; the native methods are what is
    embedded. *)

From stdpp Require Import gmap strings list.

(** ** The parts of the C++ standard library used by the class *)

Section vector.
Context {A : Type} `{EqDecision A}.

(** [std::find(v.begin(), v.end(), x)], the iterator given as an index:
    the position of the first element equal to [x], or [length v] for
    [v.end()]. *)
Fixpoint std_find (v : list A) (x : A) : nat :=
  match v with
  | [] => 0
  | y :: v' => if decide (y = x) then 0 else S (std_find v' x)
  end.

(** [v.insert(position, x)] *)
Definition vector_insert (v : list A) (position : nat) (x : A) : list A :=
  take position v ++ x :: drop position v.

(** [v.push_back(x)] *)
Definition vector_push_back (v : list A) (x : A) : list A := v ++ [x].

(** The loop of [std::remove_if]: [unread] are the elements not yet
    visited, [out] is the write position.  An element that is kept is
    assigned to [v[out]]. *)
Fixpoint std_remove_if_loop (p : A → bool) (unread : list A) (out : nat)
    (v : list A) : list A * nat :=
  match unread with
  | [] => (v, out)
  | x :: rest =>
      if p x then std_remove_if_loop p rest out v
      else std_remove_if_loop p rest (S out) (<[out := x]> v)
  end.

(** [std::remove_if(v.begin(), v.end(), p)]: the vector after the
    compaction and the returned iterator, the new logical end. *)
Definition std_remove_if (p : A → bool) (v : list A) : list A * nat :=
  std_remove_if_loop p v 0 v.

(** [v.erase(first, last)] *)
Definition vector_erase (v : list A) (first last : nat) : list A :=
  take first v ++ drop last v.
End vector.

(** ** Data *)

(** [std::shared_ptr<JsiDomNode>]: null, or the address of a node. *)
Abbreviation Handle := (option nat) (only parsing).

(** [std::function<void()>]: the target of a callback is opaque, it is
    identified by a number. *)
Abbreviation Callback := nat (only parsing).

(** [jsi::Object]: an opaque reference to the object that holds a batch of
    properties. *)
Abbreviation Props := nat (only parsing).

(** The fields of the class, in the order of their declaration.  An empty
    [std::function] and a null [std::shared_ptr] are [None]. *)
Record JsiDomNode := mkJsiDomNode {
  _context : nat;
  _children : list Handle;
  _propsContainer : option nat;
  _type : string;
  _disposeCallback : option Callback
}.

(** Calls that leave the class. *)
Inductive Event :=
  | EvDisposeCallback (node : nat) (callback : Callback)
  | EvDefineProperties (node : nat) (container : nat)
  | EvContainerSetProps (container : nat) (props : Props).

(** The store.  [dispose_log] is a ghost field: the receivers of the calls
    of [dispose()] made so far, which no code reads. *)
Record World := mkWorld {
  nodes : gmap nat JsiDomNode;
  containers : gset nat;
  trace : list Event;
  dispose_log : list nat
}.

Definition update_node (f : JsiDomNode → JsiDomNode) (this : nat)
    (w : World) : World :=
  mkWorld (alter f this (nodes w)) (containers w) (trace w) (dispose_log w).

Definition emit (e : Event) (w : World) : World :=
  mkWorld (nodes w) (containers w) (trace w ++ [e]) (dispose_log w).

Definition enter_dispose (this : nat) (w : World) : World :=
  mkWorld (nodes w) (containers w) (trace w) (dispose_log w ++ [this]).

Definition set_children (v : list Handle) (n : JsiDomNode) : JsiDomNode :=
  mkJsiDomNode (_context n) v (_propsContainer n) (_type n)
    (_disposeCallback n).

Definition set_propsContainer (c : option nat) (n : JsiDomNode) : JsiDomNode :=
  mkJsiDomNode (_context n) (_children n) c (_type n) (_disposeCallback n).

Definition set_disposeCallback (cb : option Callback) (n : JsiDomNode)
    : JsiDomNode :=
  mkJsiDomNode (_context n) (_children n) (_propsContainer n) (_type n) cb.

(** ** The methods of the class *)

(** The constructor: no children, no properties container, no callback. *)
Definition JsiDomNode_ctor (context : nat) (type : string) : JsiDomNode :=
  mkJsiDomNode context [] None type None.

Definition getType (this : nat) (w : World) : option string :=
  _type <$> nodes w !! this.

Definition getPropsContainer (this : nat) (w : World) : option (option nat) :=
  _propsContainer <$> nodes w !! this.

Definition getChildren (this : nat) (w : World) : option (list Handle) :=
  _children <$> nodes w !! this.

Definition setDisposeCallback (this : nat) (disposeCallback : option Callback)
    (w : World) : option World :=
  _ ← nodes w !! this;
  Some (update_node (set_disposeCallback disposeCallback) this w).

(** [std::make_shared<NodePropsContainer>()]: a container at an address
    that was not in use. *)
Definition make_shared_NodePropsContainer (w : World) : nat * World :=
  let c := fresh (containers w) in
  (c, mkWorld (nodes w) ({[c]} ∪ containers w) (trace w) (dispose_log w)).

Definition setProps (this : nat) (props : Props) (w : World) : option World :=
  n ← nodes w !! this;
  let w1 :=
    match _propsContainer n with
    | None =>
        let '(c, w') := make_shared_NodePropsContainer w in
        let w'' := update_node (set_propsContainer (Some c)) this w' in
        emit (EvDefineProperties this c) w''
    | Some _ => w
    end in
  n1 ← nodes w1 !! this;
  c ← _propsContainer n1;
  Some (emit (EvContainerSetProps c props) w1).

Definition addChild (this : nat) (child : Handle) (w : World) : option World :=
  n ← nodes w !! this;
  Some (update_node (set_children (vector_push_back (_children n) child))
          this w).

Definition insertChildBefore (this : nat) (child before : Handle) (w : World)
    : option World :=
  n ← nodes w !! this;
  let position := std_find (_children n) before in
  Some (update_node (set_children (vector_insert (_children n) position child))
          this w).

Definition dispose (this : nat) (w : World) : option World :=
  n ← nodes w !! this;
  let w0 := enter_dispose this w in
  match _disposeCallback n with
  | Some cb =>
      Some (update_node (set_disposeCallback None) this
              (emit (EvDisposeCallback this cb) w0))
  | None => Some w0
  end.

Definition removeChild (this : nat) (child : Handle) (w : World)
    : option World :=
  n ← nodes w !! this;
  let '(v, new_end) :=
    std_remove_if (λ node, bool_decide (node = child)) (_children n) in
  let w1 := update_node (set_children (vector_erase v new_end (length v)))
              this w in
  c ← child;
  dispose c w1.

(** [JsiDomNodeCtor::createCtor]: allocate the node, then [initializeNode],
    which is [setProps] on the constructor's argument. *)
Definition createCtor (context : nat) (type : string) (props : Props)
    (w : World) : option (nat * World) :=
  let node := fresh (dom (nodes w)) in
  let w1 := mkWorld (<[node := JsiDomNode_ctor context type]> (nodes w))
              (containers w) (trace w) (dispose_log w) in
  w2 ← setProps node props w1;
  Some (node, w2).

(** Calling [dispose] [N] times in a row on one node. *)
Fixpoint dispose_n (N : nat) (this : nat) (w : World) : option World :=
  match N with
  | 0 => Some w
  | S k => w' ← dispose this w; dispose_n k this w'
  end.

(** Calling [setProps] with each batch of a list, in order. *)
Fixpoint setProps_seq (this : nat) (batches : list Props) (w : World)
    : option World :=
  match batches with
  | [] => Some w
  | b :: bs => w' ← setProps this b w; setProps_seq this bs w'
  end.

(** ** A scene: the tree A[B, C] and the detached nodes D and E *)

Definition hA : nat := 0.
Definition hB : nat := 1.
Definition hC : nat := 2.
Definition hD : nat := 3.
Definition hE : nat := 4.

Definition nodeA (childrenA : list Handle) : JsiDomNode :=
  mkJsiDomNode 0 childrenA None "skGroup" (Some 10).
Definition nodeB : JsiDomNode := mkJsiDomNode 0 [] None "skCircle" (Some 11).
Definition nodeC : JsiDomNode := mkJsiDomNode 0 [] None "skRect" (Some 12).
Definition nodeD : JsiDomNode := mkJsiDomNode 0 [] None "skPath" (Some 13).
Definition nodeE : JsiDomNode := mkJsiDomNode 0 [] None "skPaint" None.

Definition scene (childrenA : list Handle) : World :=
  mkWorld
    (<[hA := nodeA childrenA]>
       (<[hB := nodeB]> (<[hC := nodeC]> (<[hD := nodeD]> (<[hE := nodeE]> ∅)))))
    ∅ [] [].

Definition treeABC : World := scene [Some hB; Some hC].

(** The events of one call of [dispose] on [node], from the callback the
    node holds when the call starts. *)
Definition callback_events (node : nat) (cb : option Callback) : list Event :=
  match cb with
  | Some f => [EvDisposeCallback node f]
  | None => []
  end.

(** The behaviour that the specification words as "removes the first
    occurrence of child": the list without the first element equal to [x].
    This definition follows the specification, not the code; it is what
    [removeChild] is compared with. *)
Fixpoint spec_remove_first_occurrence (x : Handle) (l : list Handle)
    : list Handle :=
  match l with
  | [] => []
  | y :: l' => if decide (y = x) then l' else y :: spec_remove_first_occurrence x l'
  end.

(** The commands that the reconciler sends to a node. *)
Inductive Command :=
  | CSetProps (this : nat) (props : Props)
  | CAddChild (this : nat) (child : Handle)
  | CInsertChildBefore (this : nat) (child before : Handle)
  | CRemoveChild (this : nat) (child : Handle)
  | CDispose (this : nat)
  | CSetDisposeCallback (this : nat) (disposeCallback : option Callback).

Definition run_command (cmd : Command) (w : World) : option World :=
  match cmd with
  | CSetProps this props => setProps this props w
  | CAddChild this child => addChild this child w
  | CInsertChildBefore this child before => insertChildBefore this child before w
  | CRemoveChild this child => removeChild this child w
  | CDispose this => dispose this w
  | CSetDisposeCallback this cb => setDisposeCallback this cb w
  end.

Fixpoint run_commands (cmds : list Command) (w : World) : option World :=
  match cmds with
  | [] => Some w
  | cmd :: rest => w' ← run_command cmd w; run_commands rest w'
  end.

(** Is the event a call of the [defineProperties] hook of [node]? *)
Definition is_defineProperties_of (node : nat) (e : Event) : bool :=
  match e with
  | EvDefineProperties a _ => bool_decide (a = node)
  | _ => false
  end.

(** How many times the [defineProperties] hook of [node] has been called. *)
Definition defineProperties_calls (node : nat) (w : World) : nat :=
  length (filter (λ e, is_defineProperties_of node e = true) (trace w)).

(** How many times [x] occurs in a children list. *)
Definition occurrences (x : Handle) (l : list Handle) : nat :=
  length (filter (λ y, y = x) l).

(** ** The rest of the class *)

Definition getContext (this : nat) (w : World) : option nat :=
  _context <$> nodes w !! this.

(** The values of [jsi::Value] that the [children] host function handles:
    [undefined] and a host object, which wraps a node. *)
Inductive JsiValue :=
  | JsUndefined
  | JsHostObject (node : nat).

(** [jsi::Array(runtime, length)]: an array of [length] slots, which read
    as [undefined] until they are set. *)
Definition jsi_Array (length : nat) : list JsiValue :=
  replicate length JsUndefined.

(** [array.setValueAtIndex(runtime, i, value)]: JSI throws when [i] is not
    an index of the array. *)
Definition setValueAtIndex (array : list JsiValue) (i : nat)
    (value : JsiValue) : option (list JsiValue) :=
  if decide (i < length array) then Some (<[i := value]> array) else None.

(** [asHostObject]: [shared_from_this()] wrapped into a host object. *)
Definition asHostObject (this : nat) (w : World) : option JsiValue :=
  _ ← nodes w !! this;
  Some (JsHostObject this).

(** The loop of the [children] host function: [unread] are the children
    still to be visited, [index] is the loop's counter.  Each child handle
    is dereferenced. *)
Fixpoint children_loop (unread : list Handle) (index : nat)
    (array : list JsiValue) (w : World) : option (list JsiValue) :=
  match unread with
  | [] => Some array
  | child :: rest =>
      c ← child;
      value ← asHostObject c w;
      array' ← setValueAtIndex array index value;
      children_loop rest (S index) array' w
  end.

(** The [children] host function. *)
Definition children (this : nat) (w : World) : option (list JsiValue) :=
  n ← nodes w !! this;
  children_loop (_children n) 0 (jsi_Array (length (_children n))) w.

(** What the reconciler can ask for: a new node from the constructor
    function, or a command on a node. *)
Inductive Request :=
  | RCreate (context : nat) (type : string) (props : Props)
  | RCommand (cmd : Command).

Definition run_request (r : Request) (w : World) : option World :=
  match r with
  | RCreate context type props => snd <$> createCtor context type props w
  | RCommand cmd => run_command cmd w
  end.

Fixpoint run_requests (rs : list Request) (w : World) : option World :=
  match rs with
  | [] => Some w
  | r :: rest => w' ← run_request r w; run_requests rest w'
  end.

(** The store before any node is made. *)
Definition empty_world : World := mkWorld ∅ ∅ [] [].

(** The list-level reading of [insertChildBefore]: [child] goes before the
    first [before], or to the end when there is none.  This definition and
    the next are written on plain lists, independently of the code; the
    code is compared with them. *)
Fixpoint spec_insert_before (child before : Handle) (l : list Handle)
    : list Handle :=
  match l with
  | [] => [child]
  | y :: l' =>
      if decide (y = before) then child :: y :: l'
      else y :: spec_insert_before child before l'
  end.

(** The effect of one command on the children list of [this], on plain
    lists: only the structural commands addressed to [this] count. *)
Definition spec_apply_command (this : nat) (l : list Handle) (cmd : Command)
    : list Handle :=
  match cmd with
  | CAddChild p child => if decide (p = this) then l ++ [child] else l
  | CInsertChildBefore p child before =>
      if decide (p = this) then spec_insert_before child before l else l
  | CRemoveChild p child =>
      if decide (p = this) then filter (λ x, x ≠ child) l else l
  | _ => l
  end.

(** A request stream and the store it builds from nothing: three nodes,
    the second and third made children of the first. *)
Definition demo_requests : list Request :=
  [RCreate 0 "skGroup" 1; RCreate 0 "skCircle" 2; RCreate 0 "skRect" 3;
   RCommand (CAddChild 0 (Some 1)); RCommand (CAddChild 0 (Some 2));
   RCommand (CSetProps 1 4); RCommand (CSetDisposeCallback 1 (Some 20));
   RCommand (CRemoveChild 0 (Some 1))].

Definition demo_world : World :=
  default empty_world (run_requests demo_requests empty_world).

(** The elementary changes of the store that the methods are made of. *)
Inductive command_step : World → World → Prop :=
  | step_children a v w :
      command_step w (update_node (set_children v) a w)
  | step_callback a cbo w :
      command_step w (update_node (set_disposeCallback cbo) a w)
  | step_invoke a cb w :
      command_step w (emit (EvDisposeCallback a cb) w)
  | step_container_setProps c props w :
      command_step w (emit (EvContainerSetProps c props) w)
  | step_enter_dispose a w :
      command_step w (enter_dispose a w)
  | step_new_container a n w :
      nodes w !! a = Some n →
      _propsContainer n = None →
      command_step w
        (emit (EvDefineProperties a (fresh (containers w)))
           (update_node (set_propsContainer (Some (fresh (containers w)))) a
              (make_shared_NodePropsContainer w).2)).

(** The store with a node just constructed at [a]. *)
Definition new_node (a : nat) (context : nat) (type : string) (w : World)
    : World :=
  mkWorld (<[a := JsiDomNode_ctor context type]> (nodes w))
    (containers w) (trace w) (dispose_log w).

(** The properties containers are well formed: a container held by a node
    is allocated, no two nodes hold the same container, and the
    [defineProperties] hook of a node has been called once if the node holds
    a container and never otherwise. *)
Definition containers_wf (w : World) : Prop :=
  (∀ a c, getPropsContainer a w = Some (Some c) → c ∈ containers w) ∧
  (∀ a b c, getPropsContainer a w = Some (Some c) →
            getPropsContainer b w = Some (Some c) → a = b) ∧
  (∀ a, defineProperties_calls a w =
          match getPropsContainer a w with
          | Some (Some _) => 1
          | _ => 0
          end).

(** Every live node holds a properties container. *)
Definition all_initialized (w : World) : Prop :=
  ∀ a, is_Some (nodes w !! a) → ∃ c, getPropsContainer a w = Some (Some c).

(** The tree A[B, C] with B also listed under D. *)
Definition sharedB : World :=
  mkWorld
    (<[hA := nodeA [Some hB; Some hC]]>
       (<[hB := nodeB]>
          (<[hC := nodeC]>
             (<[hD := mkJsiDomNode 0 [Some hB] None "skPath" (Some 13)]>
                (<[hE := nodeE]> ∅)))))
    ∅ [] [].

(** Commands on the tree A[B, C], and the store they lead to. *)
Definition sim_commands : list Command :=
  [CAddChild hA (Some hD); CInsertChildBefore hA (Some hE) (Some hC);
   CSetProps hA 1; CAddChild hD (Some hB); CRemoveChild hA (Some hB);
   CDispose hC].

Definition sim_world : World :=
  default treeABC (run_commands sim_commands treeABC).

(** Requests on the tree A[B, C], one of them a construction. *)
Definition mixed_requests : list Request :=
  [RCommand (CRemoveChild hA (Some hB)); RCreate 7 "skPath" 9;
   RCommand (CSetProps hA 5); RCommand (CAddChild hA (Some 5))].

Definition mixed_world : World :=
  default treeABC (run_requests mixed_requests treeABC).

(** Is the event an invocation of the dispose callback of [node]? *)
Definition is_disposeCallback_of (node : nat) (e : Event) : bool :=
  match e with
  | EvDisposeCallback a _ => bool_decide (a = node)
  | _ => false
  end.

(** How many times a dispose callback of [node] has been invoked. *)
Definition callback_invocations (node : nat) (w : World) : nat :=
  length (filter (λ e, is_disposeCallback_of node e = true) (trace w)).

(** 1 when [node] holds a dispose callback, 0 otherwise. *)
Definition armed (node : nat) (w : World) : nat :=
  match nodes w !! node with
  | Some n => match _disposeCallback n with Some _ => 1 | None => 0 end
  | None => 0
  end.

(** Does the command give [node] a non-empty dispose callback? *)
Definition is_registration (node : nat) (cmd : Command) : bool :=
  match cmd with
  | CSetDisposeCallback a (Some _) => bool_decide (a = node)
  | _ => false
  end.

Definition registrations (node : nat) (cmds : list Command) : nat :=
  length (filter (λ cmd, is_registration node cmd = true) cmds).

(** Commands that dispose B three times and register one new callback. *)
Definition rearm_commands : list Command :=
  [CRemoveChild hA (Some hB); CDispose hB;
   CSetDisposeCallback hB (Some 99); CDispose hB; CDispose hB].

Definition rearm_world : World :=
  default treeABC (run_commands rearm_commands treeABC).

(** ** Lemmas on the standard library's operations *)

Section vector_lemmas.
Context {A : Type} `{EqDecision A}.
Implicit Types (v l : list A) (x y : A).

Lemma std_find_first l1 l2 x :
  x ∉ l1 → std_find (l1 ++ x :: l2) x = length l1.
Proof.
  induction l1 as [|y l1 IH]; simpl; intros Hx.
  - by rewrite decide_True.
  - apply not_elem_of_cons in Hx as [Hne Hx].
    rewrite decide_False by done. by rewrite IH.
Qed.

Lemma std_find_absent v x : x ∉ v → std_find v x = length v.
Proof.
  induction v as [|y v IH]; simpl; intros Hx; [done|].
  apply not_elem_of_cons in Hx as [Hne Hx].
  rewrite decide_False by done. by rewrite IH.
Qed.

Lemma std_find_le v x : std_find v x ≤ length v.
Proof. induction v as [|y v IH]; simpl; [lia|]. case_decide; lia. Qed.

Lemma vector_insert_middle l1 l2 x :
  vector_insert (l1 ++ l2) (length l1) x = l1 ++ x :: l2.
Proof.
  unfold vector_insert.
  by rewrite take_app_length, drop_app_length.
Qed.

Lemma vector_insert_end v x :
  vector_insert v (length v) x = v ++ [x].
Proof.
  unfold vector_insert. by rewrite firstn_all, drop_all.
Qed.

Lemma std_remove_if_loop_spec (p : A → bool) unread :
  ∀ out v v' new_end,
    out + length unread ≤ length v →
    std_remove_if_loop p unread out v = (v', new_end) →
    length v' = length v ∧
    take new_end v' = take out v ++ filter (λ x, p x = false) unread.
Proof.
  induction unread as [|x rest IH]; simpl; intros out v v' new_end Hlen Hrun.
  - inversion Hrun; subst. by rewrite filter_nil, app_nil_r.
  - destruct (p x) eqn:Hp.
    + apply IH in Hrun as [Hl Ht]; [|lia]. split; [done|].
      rewrite Ht. by rewrite filter_cons_False by (rewrite Hp; done).
    + apply IH in Hrun as [Hl Ht]; [|rewrite length_insert; lia].
      rewrite length_insert in Hl. split; [done|].
      rewrite Ht, filter_cons_True by done.
      rewrite (take_S_r _ out x) by (apply list_lookup_insert_eq; lia).
      rewrite take_insert_ge by lia. by rewrite <- app_assoc.
Qed.

(** The erase-remove idiom keeps exactly the elements that fail the
    predicate, in their order. *)
Lemma erase_remove_if (p : A → bool) v v' new_end :
  std_remove_if p v = (v', new_end) →
  vector_erase v' new_end (length v') = filter (λ x, p x = false) v.
Proof.
  intros Hrun. apply std_remove_if_loop_spec in Hrun as [Hl Ht]; [|simpl; lia].
  unfold vector_erase. rewrite Ht, drop_all. simpl. by rewrite app_nil_r.
Qed.
End vector_lemmas.

(** ** Lemmas on the store *)

Lemma lookup_update_node_eq f this w n :
  nodes w !! this = Some n →
  nodes (update_node f this w) !! this = Some (f n).
Proof. intros Hn. simpl. by rewrite lookup_alter_eq, Hn. Qed.

Lemma lookup_update_node_ne f this a w :
  this ≠ a → nodes (update_node f this w) !! a = nodes w !! a.
Proof. intros Hne. simpl. by rewrite lookup_alter_ne. Qed.

Lemma dispose_live w this n :
  nodes w !! this = Some n →
  ∃ w', dispose this w = Some w' ∧
        dispose_log w' = dispose_log w ++ [this] ∧
        trace w' = trace w ++ callback_events this (_disposeCallback n) ∧
        containers w' = containers w ∧
        nodes w' !! this = Some (set_disposeCallback None n) ∧
        (∀ a, this ≠ a → nodes w' !! a = nodes w !! a).
Proof.
  intros Hn. unfold dispose. rewrite Hn. simpl.
  destruct (_disposeCallback n) as [cb|] eqn:Hcb; eexists; (split; [done|]);
    simpl; repeat split; try done.
  - by rewrite lookup_alter_eq, Hn.
  - intros a Hne. by rewrite lookup_alter_ne.
  - by rewrite app_nil_r.
  - rewrite Hn. f_equal. destruct n; simpl in *. by subst.
Qed.

Lemma dispose_cleared w this n :
  nodes w !! this = Some n → _disposeCallback n = None →
  dispose this w = Some (enter_dispose this w).
Proof. intros Hn Hcb. unfold dispose. rewrite Hn. simpl. by rewrite Hcb. Qed.

Lemma dispose_n_cleared N : ∀ w this n,
  nodes w !! this = Some n → _disposeCallback n = None →
  ∃ wN, dispose_n N this w = Some wN ∧
        nodes wN = nodes w ∧ containers wN = containers w ∧
        trace wN = trace w ∧
        dispose_log wN = dispose_log w ++ replicate N this.
Proof.
  induction N as [|N IH]; intros w this n Hn Hcb; simpl.
  - exists w. by rewrite app_nil_r.
  - rewrite (dispose_cleared w this n) by done. simpl.
    destruct (IH (enter_dispose this w) this n Hn Hcb)
      as (wN & Hrun & Hnodes & Hcont & Htrace & Hlog).
    exists wN. repeat split; try done.
    rewrite Hlog. simpl. by rewrite <- app_assoc.
Qed.

(** What [removeChild] does, with the erase-remove idiom replaced by the
    filter it computes. *)
Lemma removeChild_unfold w this child n :
  nodes w !! this = Some n →
  removeChild this child w =
    c ← child;
    dispose c
      (update_node (set_children (filter (λ x, x ≠ child) (_children n)))
         this w).
Proof.
  intros Hn. unfold removeChild. rewrite Hn. simpl.
  destruct (std_remove_if _ _) as [v new_end] eqn:Hrun.
  apply erase_remove_if in Hrun. rewrite Hrun.
  rewrite (list_filter_iff _ (λ x, x ≠ child)); [done|].
  intros x. rewrite bool_decide_eq_false. done.
Qed.

(** [removeChild] returns when the receiver and the child are live. *)
Lemma removeChild_returns w this child n nc :
  nodes w !! this = Some n → nodes w !! child = Some nc →
  ∃ w', removeChild this (Some child) w = Some w'.
Proof.
  intros Hn Hc. rewrite (removeChild_unfold w this (Some child) n Hn). simpl.
  set (w1 := update_node _ this w).
  assert (is_Some (nodes w1 !! child)) as [nc1 Hc1].
  { destruct (decide (this = child)) as [->|Hne].
    - eexists. by apply lookup_update_node_eq.
    - exists nc. unfold w1. by rewrite lookup_update_node_ne. }
  destruct (dispose_live w1 child nc1 Hc1) as (w' & Hd & _).
  by exists w'.
Qed.

Lemma removeChild_disposes_child_log w this child n nc :
  nodes w !! this = Some n → nodes w !! child = Some nc →
  ∃ w', removeChild this (Some child) w = Some w' ∧
        dispose_log w' = dispose_log w ++ [child].
Proof.
  intros Hn Hc.
  destruct (removeChild_returns w this child n nc Hn Hc) as (w' & Hrun).
  exists w'. split; [done|].
  rewrite (removeChild_unfold w this (Some child) n Hn) in Hrun.
  simpl in Hrun.
  destruct (nodes (update_node
              (set_children (filter (λ x, x ≠ Some child) (_children n)))
              this w) !! child) as [nc1|] eqn:Hc1.
  - destruct (dispose_live _ child nc1 Hc1) as (w2 & Hd & Hlog & _).
    rewrite Hrun in Hd. by inversion Hd; subst w2.
  - unfold dispose in Hrun. by rewrite Hc1 in Hrun.
Qed.

(** ** Disposal *)

(** C1.  A node that holds a dispose callback is disposed [N ≥ 1] times in
    a row.  The first call invokes the callback and clears it; after the
    [N] calls the callback has been invoked exactly once, and any further
    call of [dispose] changes nothing but the ghost log of calls. *)
Theorem dispose_invokes_callback_once (w : World) (this : nat)
    (n : JsiDomNode) (cb : Callback) (N : nat) :
  nodes w !! this = Some n →
  _disposeCallback n = Some cb →
  1 ≤ N →
  ∃ w1 wN,
    dispose this w = Some w1 ∧
    trace w1 = trace w ++ [EvDisposeCallback this cb] ∧
    (_disposeCallback <$> nodes w1 !! this) = Some None ∧
    dispose_n N this w = Some wN ∧
    trace wN = trace w ++ [EvDisposeCallback this cb] ∧
    nodes wN = nodes w1 ∧
    containers wN = containers w ∧
    dispose this wN = Some (enter_dispose this wN).
Proof.
  intros Hn Hcb HN.
  destruct (dispose_live w this n Hn)
    as (w1 & Hd & _ & Htrace & Hcont & Hthis & _).
  rewrite Hcb in Htrace. simpl in Htrace.
  destruct N as [|k]; [lia|]. simpl. rewrite Hd. simpl.
  destruct (dispose_n_cleared k w1 this _ Hthis eq_refl)
    as (wN & Hrun & Hnodes & Hcont' & Htrace' & _).
  exists w1, wN. repeat split; try done.
  - by rewrite Hthis.
  - congruence.
  - congruence.
  - apply (dispose_cleared wN this (set_disposeCallback None n)); [|done].
    by rewrite Hnodes.
Qed.

(** A node without a dispose callback: no call of [dispose] invokes
    anything. *)
Lemma dispose_n_without_callback (w : World) (this : nat) (n : JsiDomNode)
    (N : nat) :
  nodes w !! this = Some n → _disposeCallback n = None →
  ∃ wN, dispose_n N this w = Some wN ∧ trace wN = trace w ∧
        nodes wN = nodes w.
Proof.
  intros Hn Hcb.
  destruct (dispose_n_cleared N w this n Hn Hcb) as (wN & ? & ? & _ & ? & _).
  by exists wN.
Qed.

(** C2.  [removeChild] calls [dispose] on the child exactly once, whether
    or not the child is in the children list of the receiver: the log of
    [dispose] calls gains the child once, the child's callback, if it holds
    one, is invoked, and the child holds no callback afterwards. *)
Theorem removeChild_disposes_child_once (w : World) (this child : nat)
    (n nc : JsiDomNode) :
  nodes w !! this = Some n →
  nodes w !! child = Some nc →
  ∃ w',
    removeChild this (Some child) w = Some w' ∧
    dispose_log w' = dispose_log w ++ [child] ∧
    trace w' = trace w ++ callback_events child (_disposeCallback nc) ∧
    (_disposeCallback <$> nodes w' !! child) = Some None.
Proof.
  intros Hn Hc. rewrite (removeChild_unfold w this (Some child) n Hn). simpl.
  set (w1 := update_node _ this w).
  assert (∃ nc1, nodes w1 !! child = Some nc1 ∧
                 _disposeCallback nc1 = _disposeCallback nc)
    as (nc1 & Hc1 & Hcb).
  { destruct (decide (this = child)) as [->|Hne].
    - eexists. split; [by apply lookup_update_node_eq|].
      rewrite Hn in Hc. by inversion Hc.
    - exists nc. split; [|done].
      unfold w1. by rewrite lookup_update_node_ne. }
  destruct (dispose_live w1 child nc1 Hc1)
    as (w' & Hd & Hlog & Htrace & _ & Hthis & _).
  exists w'. repeat split; try done.
  - by rewrite Htrace, Hcb.
  - by rewrite Hthis.
Qed.

(** ** The children list *)

(** Closes [x ∉ l] for a closed list [l] of handles. *)
Ltac absent_from_list :=
  rewrite ?not_elem_of_cons; repeat split;
  [discriminate || (intros [=]; discriminate) .. | apply not_elem_of_nil].

Lemma getChildren_set_children w this n v :
  nodes w !! this = Some n →
  getChildren this (update_node (set_children v) this w) = Some v.
Proof.
  intros Hn. unfold getChildren.
  by rewrite (lookup_update_node_eq _ _ _ n).
Qed.

Lemma getChildren_update_node_ne f w this a :
  this ≠ a → getChildren a (update_node f this w) = getChildren a w.
Proof. intros Hne. unfold getChildren. by rewrite lookup_update_node_ne. Qed.

Lemma dispose_getChildren w this w' :
  dispose this w = Some w' → ∀ a, getChildren a w' = getChildren a w.
Proof.
  intros Hd a. unfold getChildren.
  destruct (nodes w !! this) as [n|] eqn:Hn.
  - destruct (dispose_live w this n Hn) as (w2 & Hd2 & _ & _ & _ & Hthis & Hoth).
    rewrite Hd in Hd2. inversion Hd2; subst w2.
    destruct (decide (this = a)) as [<-|Hne].
    + by rewrite Hthis, Hn.
    + by rewrite Hoth.
  - unfold dispose in Hd. by rewrite Hn in Hd.
Qed.

Lemma filter_ne_absent {A : Type} `{EqDecision A} (x : A) (l : list A) :
  x ∉ l → filter (λ y, y ≠ x) l = l.
Proof.
  induction l as [|y l IH]; intros Hx; [done|].
  apply not_elem_of_cons in Hx as [Hne Hx].
  rewrite filter_cons_True by done. by rewrite IH.
Qed.

Lemma removeChild_children w this child n :
  nodes w !! this = Some n →
  is_Some (nodes w !! child) →
  ∃ w', removeChild this (Some child) w = Some w' ∧
        getChildren this w' =
          Some (filter (λ x, x ≠ Some child) (_children n)) ∧
        (∀ a, this ≠ a → getChildren a w' = getChildren a w).
Proof.
  intros Hn [nc Hc].
  destruct (removeChild_returns w this child n nc Hn Hc)
    as (w' & Hrun).
  exists w'. split; [done|].
  rewrite (removeChild_unfold w this (Some child) n Hn) in Hrun.
  simpl in Hrun. split.
  - rewrite (dispose_getChildren _ _ _ Hrun).
    by apply (getChildren_set_children w this n).
  - intros a Hne. rewrite (dispose_getChildren _ _ _ Hrun).
    by apply getChildren_update_node_ne.
Qed.

Lemma spec_remove_first_occurrence_unique (x : Handle) (l1 l2 : list Handle) :
  x ∉ l1 → spec_remove_first_occurrence x (l1 ++ x :: l2) = l1 ++ l2.
Proof.
  induction l1 as [|y l1 IH]; simpl; intros Hx.
  - by rewrite decide_True.
  - apply not_elem_of_cons in Hx as [Hne Hx].
    rewrite decide_False by done. by rewrite IH.
Qed.

(** C3, as the code has it.  [removeChild] removes every occurrence of the
    child from the children list, not only the first, and keeps the other
    children in their order; the children lists of the other nodes stay as
    they were. *)
Theorem removeChild_removes_every_occurrence (w : World) (this child : nat)
    (n : JsiDomNode) :
  nodes w !! this = Some n →
  is_Some (nodes w !! child) →
  ∃ w' children',
    removeChild this (Some child) w = Some w' ∧
    getChildren this w' = Some children' ∧
    children' = filter (λ x, x ≠ Some child) (_children n) ∧
    (Some child ∉ children') ∧
    (∀ a, this ≠ a → getChildren a w' = getChildren a w).
Proof.
  intros Hn Hc.
  destruct (removeChild_children w this child n Hn Hc)
    as (w' & Hrun & Hch & Hoth).
  exists w', (filter (λ x, x ≠ Some child) (_children n)).
  split; [done|]. split; [done|]. split; [done|]. split; [|done].
  intros Hin. apply list_elem_of_filter in Hin as [Hne _]. by apply Hne.
Qed.

(** When the child occurs once, removing every occurrence is removing the
    first one, as the specification words it. *)
Lemma removeChild_single_occurrence (w : World) (this child : nat)
    (n : JsiDomNode) (l1 l2 : list Handle) :
  nodes w !! this = Some n →
  is_Some (nodes w !! child) →
  _children n = l1 ++ Some child :: l2 →
  Some child ∉ l1 → Some child ∉ l2 →
  ∃ w',
    removeChild this (Some child) w = Some w' ∧
    getChildren this w' = Some (l1 ++ l2) ∧
    l1 ++ l2 = spec_remove_first_occurrence (Some child) (_children n).
Proof.
  intros Hn Hc Hl Hl1 Hl2.
  destruct (removeChild_children w this child n Hn Hc) as (w' & Hrun & Hch & _).
  exists w'. split; [done|]. split.
  - rewrite Hch, Hl. f_equal.
    rewrite filter_app, filter_cons_False by (intros ?; done).
    by rewrite !filter_ne_absent.
  - rewrite Hl. by rewrite spec_remove_first_occurrence_unique.
Qed.

(** C3, as stated, fails when the child occurs twice: on the children
    [B, C, B], [removeChild] of B leaves [C], while removing the first
    occurrence only would leave [C, B]. *)
Lemma removeChild_first_occurrence_counterexample :
  Some hB ∈ [Some hB; Some hC; Some hB] ∧
  (removeChild hA (Some hB) (scene [Some hB; Some hC; Some hB])
     ≫= getChildren hA) = Some [Some hC] ∧
  spec_remove_first_occurrence (Some hB) [Some hB; Some hC; Some hB]
    = [Some hC; Some hB] ∧
  (removeChild hA (Some hB) (scene [Some hB; Some hC; Some hB])
     ≫= getChildren hA)
    ≠ Some (spec_remove_first_occurrence (Some hB)
              [Some hB; Some hC; Some hB]).
Proof.
  split; [by left|].
  split; [by vm_compute|].
  split; [by vm_compute|].
  vm_compute. discriminate.
Qed.

(** C4.  When the marker is in the children list, [insertChildBefore] puts
    the child immediately before the first occurrence of the marker and
    keeps every other child in place. *)
Theorem insertChildBefore_inserts_before_marker (w : World) (this : nat)
    (n : JsiDomNode) (child before : Handle) (l1 l2 : list Handle) :
  nodes w !! this = Some n →
  _children n = l1 ++ before :: l2 →
  before ∉ l1 →
  ∃ w',
    insertChildBefore this child before w = Some w' ∧
    getChildren this w' = Some (l1 ++ child :: before :: l2) ∧
    (∀ a, this ≠ a → nodes w' !! a = nodes w !! a) ∧
    trace w' = trace w.
Proof.
  intros Hn Hch Hfirst. unfold insertChildBefore. rewrite Hn. simpl.
  eexists. split; [done|]. repeat split.
  - rewrite (getChildren_set_children w this n) by done.
    rewrite Hch, std_find_first by done.
    by rewrite vector_insert_middle.
  - intros a Hne. by apply lookup_update_node_ne.
Qed.

(** C5.  [addChild] appends the child to the children list: the children
    that were there keep their places and the child is the last element. *)
Theorem addChild_appends (w : World) (this : nat) (n : JsiDomNode)
    (child : Handle) :
  nodes w !! this = Some n →
  ∃ w',
    addChild this child w = Some w' ∧
    getChildren this w' = Some (_children n ++ [child]) ∧
    (last <$> getChildren this w') = Some (Some child).
Proof.
  intros Hn. unfold addChild. rewrite Hn. simpl.
  eexists. split; [done|].
  rewrite (getChildren_set_children w this n) by done.
  unfold vector_push_back. split; [done|]. simpl. by rewrite last_snoc.
Qed.

(** C9.  When the marker is not in the children list, [std::find] returns
    the end of the list and [insertChildBefore] appends the child; the call
    returns. *)
Theorem insertChildBefore_absent_marker_appends (w : World) (this : nat)
    (n : JsiDomNode) (child before : Handle) :
  nodes w !! this = Some n →
  before ∉ _children n →
  ∃ w',
    insertChildBefore this child before w = Some w' ∧
    getChildren this w' = Some (_children n ++ [child]).
Proof.
  intros Hn Habsent. unfold insertChildBefore. rewrite Hn. simpl.
  eexists. split; [done|].
  rewrite (getChildren_set_children w this n) by done.
  by rewrite std_find_absent, vector_insert_end.
Qed.

(** C8, as the code has it.  A miss is not reported.  [removeChild] of a
    node that is not a child returns and leaves the children list as it
    was (the node is disposed all the same); [insertChildBefore] with a
    marker that is not a child returns after appending the child. *)
Theorem structural_miss_returns_normally (w : World) (this absent : nat)
    (n : JsiDomNode) (child marker : Handle) :
  nodes w !! this = Some n →
  is_Some (nodes w !! absent) →
  Some absent ∉ _children n →
  marker ∉ _children n →
  (∃ w', removeChild this (Some absent) w = Some w' ∧
         getChildren this w' = Some (_children n) ∧
         dispose_log w' = dispose_log w ++ [absent]) ∧
  (∃ w', insertChildBefore this child marker w = Some w' ∧
         getChildren this w' = Some (_children n ++ [child])).
Proof.
  intros Hn [nc Hc] Habsent Hmarker. split.
  - destruct (removeChild_children w this absent n Hn (mk_is_Some _ _ Hc))
      as (w' & Hrun & Hch & _).
    destruct (removeChild_disposes_child_log w this absent n nc Hn Hc)
      as (w2 & Hrun2 & Hlog).
    rewrite Hrun in Hrun2. inversion Hrun2; subst w2.
    exists w'. repeat split; try done.
    by rewrite Hch, filter_ne_absent.
  - unfold insertChildBefore. rewrite Hn. simpl.
    eexists. split; [done|].
    rewrite (getChildren_set_children w this n) by done.
    by rewrite std_find_absent, vector_insert_end.
Qed.

(** C8, as stated, fails: on the tree A[B, C], neither [removeChild] of the
    detached node D nor [insertChildBefore] with the detached marker E
    fails.  Both return a store. *)
Lemma structural_miss_failure_counterexample :
  (Some hD ∉ [Some hB; Some hC]) ∧
  (removeChild hA (Some hD) treeABC) ≠ None ∧
  (removeChild hA (Some hD) treeABC ≫= getChildren hA)
    = Some [Some hB; Some hC] ∧
  (Some hE ∉ [Some hB; Some hC]) ∧
  (insertChildBefore hA (Some hD) (Some hE) treeABC) ≠ None ∧
  (insertChildBefore hA (Some hD) (Some hE) treeABC ≫= getChildren hA)
    = Some [Some hB; Some hC; Some hD].
Proof.
  split; [absent_from_list|].
  split; [by vm_compute|].
  split; [by vm_compute|].
  split; [absent_from_list|].
  split; [by vm_compute|].
  by vm_compute.
Qed.

Lemma occurrences_snoc (x : Handle) (l : list Handle) :
  occurrences x (l ++ [x]) = S (occurrences x l).
Proof.
  unfold occurrences.
  rewrite filter_app, length_app, filter_cons_True by done. simpl. lia.
Qed.

(** C10.  [addChild] checks nothing and returns for every child handle: the
    child is appended even when it is already in the list, where it then
    occurs once more, and the children lists of the other nodes, which may
    hold the same child, stay as they were. *)
Theorem addChild_unconditional (w : World) (this : nat) (n : JsiDomNode)
    (child : Handle) :
  nodes w !! this = Some n →
  ∃ w',
    addChild this child w = Some w' ∧
    getChildren this w' = Some (_children n ++ [child]) ∧
    (occurrences child <$> getChildren this w')
      = Some (S (occurrences child (_children n))) ∧
    (∀ a, this ≠ a → getChildren a w' = getChildren a w).
Proof.
  intros Hn. unfold addChild. rewrite Hn. simpl.
  eexists. split; [done|].
  rewrite (getChildren_set_children w this n) by done.
  unfold vector_push_back. repeat split.
  - simpl. by rewrite occurrences_snoc.
  - intros a Hne. by apply getChildren_update_node_ne.
Qed.

(** The same node twice under one parent, and under two parents. *)
Example addChild_twice_and_shared :
  (addChild hA (Some hB) treeABC ≫= getChildren hA)
    = Some [Some hB; Some hC; Some hB] ∧
  (w ← addChild hD (Some hB) treeABC;
   Some (getChildren hA w, getChildren hD w))
    = Some (Some [Some hB; Some hC], Some [Some hB]).
Proof. split; by vm_compute. Qed.

(** ** The properties container *)

Lemma setProps_first w this n props :
  nodes w !! this = Some n → _propsContainer n = None →
  setProps this props w =
    Some (emit (EvContainerSetProps (fresh (containers w)) props)
            (emit (EvDefineProperties this (fresh (containers w)))
               (update_node (set_propsContainer (Some (fresh (containers w))))
                  this (make_shared_NodePropsContainer w).2))).
Proof.
  intros Hn Hc. unfold setProps. rewrite Hn. simpl. rewrite Hc. simpl.
  by rewrite lookup_alter_eq, Hn.
Qed.

Lemma setProps_later w this n c props :
  nodes w !! this = Some n → _propsContainer n = Some c →
  setProps this props w = Some (emit (EvContainerSetProps c props) w).
Proof.
  intros Hn Hc. unfold setProps. rewrite Hn. simpl. rewrite Hc. simpl.
  by rewrite Hn; simpl; rewrite Hc.
Qed.

Lemma setProps_seq_later batches : ∀ w this n c,
  nodes w !! this = Some n → _propsContainer n = Some c →
  ∃ w', setProps_seq this batches w = Some w' ∧
        nodes w' = nodes w ∧ containers w' = containers w ∧
        trace w' = trace w ++ map (EvContainerSetProps c) batches.
Proof.
  induction batches as [|b bs IH]; intros w this n c Hn Hc; simpl.
  - exists w. by rewrite app_nil_r.
  - rewrite (setProps_later w this n c) by done. simpl.
    destruct (IH (emit (EvContainerSetProps c b) w) this n c Hn Hc)
      as (w' & Hrun & Hnodes & Hcont & Htrace).
    exists w'. repeat split; try done.
    rewrite Htrace. simpl. by rewrite <- app_assoc.
Qed.

Lemma defineProperties_calls_emit a e w :
  is_defineProperties_of a e = false →
  defineProperties_calls a (emit e w) = defineProperties_calls a w.
Proof.
  intros He. unfold defineProperties_calls. simpl.
  rewrite filter_app, filter_cons_False by (rewrite He; done).
  by rewrite filter_nil, app_nil_r.
Qed.

Lemma getPropsContainer_update_node f this a w :
  (∀ n, _propsContainer (f n) = _propsContainer n) →
  getPropsContainer a (update_node f this w) = getPropsContainer a w.
Proof.
  intros Hf. unfold getPropsContainer.
  destruct (decide (this = a)) as [<-|Hne].
  - simpl. rewrite lookup_alter_eq.
    destruct (nodes w !! this) as [n|]; simpl; [|done]. by rewrite Hf.
  - by rewrite lookup_update_node_ne.
Qed.

(** [dispose] touches neither a properties container nor the hook. *)
Lemma dispose_keeps_container w this w' a :
  dispose this w = Some w' →
  getPropsContainer a w' = getPropsContainer a w ∧
  defineProperties_calls a w' = defineProperties_calls a w.
Proof.
  unfold dispose. destruct (nodes w !! this) as [n|]; simpl; [|done].
  destruct (_disposeCallback n) as [cb|]; intros [= <-].
  - split.
    + by rewrite getPropsContainer_update_node.
    + unfold defineProperties_calls. simpl.
      rewrite filter_app, filter_cons_False by done.
      by rewrite filter_nil, app_nil_r.
  - done.
Qed.

(** Once a node has its properties container, no command replaces it and
    no command calls the node's [defineProperties] hook again. *)
Lemma run_command_keeps_container cmd w w' a c :
  getPropsContainer a w = Some (Some c) →
  run_command cmd w = Some w' →
  getPropsContainer a w' = Some (Some c) ∧
  defineProperties_calls a w' = defineProperties_calls a w.
Proof.
  intros Ha Hrun. rewrite <- Ha.
  destruct cmd as [this props|this child|this child before|this child|this
                  |this cb]; simpl in Hrun.
  - destruct (nodes w !! this) as [n|] eqn:Hn;
      [|unfold setProps in Hrun; by rewrite Hn in Hrun].
    destruct (_propsContainer n) as [c'|] eqn:Hc.
    + rewrite (setProps_later w this n c') in Hrun by done.
      inversion Hrun; subst w'. split; [done|].
      by apply defineProperties_calls_emit.
    + rewrite (setProps_first w this n) in Hrun by done.
      inversion Hrun; subst w'.
      assert (this ≠ a) as Hne.
      { intros ->. unfold getPropsContainer in Ha. rewrite Hn in Ha.
        simpl in Ha. congruence. }
      split.
      * unfold getPropsContainer. simpl. by rewrite lookup_alter_ne.
      * rewrite defineProperties_calls_emit by done.
        rewrite defineProperties_calls_emit; [done|].
        simpl. by apply bool_decide_eq_false.
  - unfold addChild in Hrun.
    destruct (nodes w !! this) as [n|]; simpl in Hrun; [|done].
    inversion Hrun; subst w'. split; [|done].
    by apply getPropsContainer_update_node.
  - unfold insertChildBefore in Hrun.
    destruct (nodes w !! this) as [n|]; simpl in Hrun; [|done].
    inversion Hrun; subst w'. split; [|done].
    by apply getPropsContainer_update_node.
  - destruct (nodes w !! this) as [n|] eqn:Hn;
      [|unfold removeChild in Hrun; by rewrite Hn in Hrun].
    rewrite (removeChild_unfold w this child n Hn) in Hrun.
    destruct child as [ch|]; simpl in Hrun; [|done].
    apply (dispose_keeps_container _ _ _ a) in Hrun as [-> ->].
    split; [|done]. by apply getPropsContainer_update_node.
  - by apply (dispose_keeps_container w this).
  - unfold setDisposeCallback in Hrun.
    destruct (nodes w !! this) as [n|]; simpl in Hrun; [|done].
    inversion Hrun; subst w'. split; [|done].
    by apply getPropsContainer_update_node.
Qed.

Lemma run_commands_keeps_container cmds : ∀ w w' a c,
  getPropsContainer a w = Some (Some c) →
  run_commands cmds w = Some w' →
  getPropsContainer a w' = Some (Some c) ∧
  defineProperties_calls a w' = defineProperties_calls a w.
Proof.
  induction cmds as [|cmd rest IH]; intros w w' a c Ha Hrun; simpl in Hrun.
  - by inversion Hrun; subst.
  - destruct (run_command cmd w) as [w1|] eqn:Hcmd; simpl in Hrun; [|done].
    destruct (run_command_keeps_container cmd w w1 a c Ha Hcmd) as [Ha1 Hn1].
    destruct (IH w1 w' a c Ha1 Hrun) as [Ha' Hn'].
    split; [done|]. congruence.
Qed.

Lemma filter_defineProperties_setProps a c batches :
  filter (λ e, is_defineProperties_of a e = true)
    (map (EvContainerSetProps c) batches) = [].
Proof.
  induction batches as [|b bs IH]; simpl; [done|].
  by rewrite filter_cons_False.
Qed.

(** C6.  On a node that has no properties container yet, the first
    [setProps] creates one, at an address [c] that was not in use, and
    calls [defineProperties] on it.  However many [setProps] calls follow,
    the node keeps the container [c], every batch goes to [c], no other
    container is created and [defineProperties] has been called once.  No
    later command of any kind replaces the container or calls the hook
    again. *)
Theorem setProps_creates_container_once (w : World) (this : nat)
    (n : JsiDomNode) (b : Props) (bs : list Props) :
  nodes w !! this = Some n →
  _propsContainer n = None →
  ∃ c w1 wn,
    (c ∉ containers w) ∧
    setProps this b w = Some w1 ∧
    getPropsContainer this w1 = Some (Some c) ∧
    trace w1 = trace w ++ [EvDefineProperties this c; EvContainerSetProps c b] ∧
    setProps_seq this (b :: bs) w = Some wn ∧
    getPropsContainer this wn = Some (Some c) ∧
    containers wn = {[c]} ∪ containers w ∧
    trace wn = trace w ++ EvDefineProperties this c
                            :: map (EvContainerSetProps c) (b :: bs) ∧
    defineProperties_calls this wn = S (defineProperties_calls this w) ∧
    (∀ cmds w', run_commands cmds wn = Some w' →
       getPropsContainer this w' = Some (Some c) ∧
       defineProperties_calls this w' = S (defineProperties_calls this w)).
Proof.
  intros Hn Hc.
  pose proof (setProps_first w this n b Hn Hc) as H1.
  set (c := fresh (containers w)) in *.
  set (w1 := emit (EvContainerSetProps c b) _) in H1.
  assert (nodes w1 !! this = Some (set_propsContainer (Some c) n)) as Hn1.
  { unfold w1. simpl. by rewrite lookup_alter_eq, Hn. }
  destruct (setProps_seq_later bs w1 this _ c Hn1 eq_refl)
    as (wn & Hseq & Hnodes & Hcont & Htrace).
  assert (trace w1 = trace w ++ [EvDefineProperties this c;
                                 EvContainerSetProps c b]) as Ht1.
  { unfold w1. simpl. by rewrite <- app_assoc. }
  assert (getPropsContainer this wn = Some (Some c)) as Hgn.
  { unfold getPropsContainer. by rewrite Hnodes, Hn1. }
  assert (defineProperties_calls this wn = S (defineProperties_calls this w))
    as Hcalls.
  { unfold defineProperties_calls. rewrite Htrace, Ht1.
    rewrite !filter_app, filter_defineProperties_setProps, app_nil_r.
    rewrite filter_cons_True by (simpl; by apply bool_decide_eq_true).
    rewrite filter_cons_False by done.
    rewrite filter_nil, length_app. simpl. lia. }
  exists c, w1, wn.
  split; [apply is_fresh|].
  split; [done|].
  split; [unfold getPropsContainer; by rewrite Hn1|].
  split; [done|].
  split; [simpl; by rewrite H1|].
  split; [done|].
  split; [done|].
  split; [rewrite Htrace, Ht1; by rewrite <- app_assoc|].
  split; [done|].
  intros cmds w' Hrun.
  destruct (run_commands_keeps_container cmds wn w' this c Hgn Hrun)
    as [Hkeep Hsame].
  split; [done|]. congruence.
Qed.

(** C7.  [setProps] returns on every live node and leaves the children
    list of every node as it was. *)
Theorem setProps_preserves_children (w : World) (this : nat) (n : JsiDomNode)
    (props : Props) :
  nodes w !! this = Some n →
  ∃ w',
    setProps this props w = Some w' ∧
    ∀ a, getChildren a w' = getChildren a w.
Proof.
  intros Hn. destruct (_propsContainer n) as [c|] eqn:Hc.
  - rewrite (setProps_later w this n c) by done. by eexists.
  - rewrite (setProps_first w this n) by done.
    eexists. split; [done|]. intros a. unfold getChildren. simpl.
    destruct (decide (this = a)) as [<-|Hne].
    + rewrite lookup_alter_eq. by rewrite Hn.
    + by rewrite lookup_alter_ne.
Qed.

(** ** The theorems at the scene *)

Lemma dispose_invokes_callback_once_witness :
  nodes treeABC !! hB = Some nodeB ∧
  _disposeCallback nodeB = Some 11 ∧
  1 ≤ 3 ∧
  ∃ w1 wN,
    dispose hB treeABC = Some w1 ∧
    trace w1 = trace treeABC ++ [EvDisposeCallback hB 11] ∧
    (_disposeCallback <$> nodes w1 !! hB) = Some None ∧
    dispose_n 3 hB treeABC = Some wN ∧
    trace wN = trace treeABC ++ [EvDisposeCallback hB 11] ∧
    nodes wN = nodes w1 ∧
    containers wN = containers treeABC ∧
    dispose hB wN = Some (enter_dispose hB wN).
Proof.
  split; [reflexivity|]. split; [reflexivity|]. split; [lia|].
  apply (dispose_invokes_callback_once treeABC hB nodeB 11 3);
    [reflexivity | reflexivity | lia].
Defined.

Lemma removeChild_disposes_child_once_witness :
  nodes treeABC !! hA = Some (nodeA [Some hB; Some hC]) ∧
  nodes treeABC !! hD = Some nodeD ∧
  ∃ w',
    removeChild hA (Some hD) treeABC = Some w' ∧
    dispose_log w' = dispose_log treeABC ++ [hD] ∧
    trace w' = trace treeABC ++ callback_events hD (_disposeCallback nodeD) ∧
    (_disposeCallback <$> nodes w' !! hD) = Some None.
Proof.
  split; [reflexivity|]. split; [reflexivity|].
  apply (removeChild_disposes_child_once treeABC hA hD
           (nodeA [Some hB; Some hC]) nodeD); reflexivity.
Defined.

Lemma removeChild_removes_every_occurrence_witness :
  nodes (scene [Some hB; Some hC; Some hB]) !! hA
    = Some (nodeA [Some hB; Some hC; Some hB]) ∧
  is_Some (nodes (scene [Some hB; Some hC; Some hB]) !! hB) ∧
  ∃ w' children',
    removeChild hA (Some hB) (scene [Some hB; Some hC; Some hB]) = Some w' ∧
    getChildren hA w' = Some children' ∧
    children' = [Some hC] ∧
    (Some hB ∉ children') ∧
    (∀ a, hA ≠ a →
       getChildren a w' = getChildren a (scene [Some hB; Some hC; Some hB])).
Proof.
  split; [reflexivity|]. split; [by exists nodeB|].
  apply (removeChild_removes_every_occurrence
           (scene [Some hB; Some hC; Some hB]) hA hB
           (nodeA [Some hB; Some hC; Some hB]));
    [reflexivity | by exists nodeB].
Defined.

Lemma insertChildBefore_inserts_before_marker_witness :
  nodes treeABC !! hA = Some (nodeA [Some hB; Some hC]) ∧
  _children (nodeA [Some hB; Some hC]) = [Some hB] ++ Some hC :: [] ∧
  (Some hC ∉ [Some hB]) ∧
  ∃ w',
    insertChildBefore hA (Some hD) (Some hC) treeABC = Some w' ∧
    getChildren hA w' = Some [Some hB; Some hD; Some hC] ∧
    (∀ a, hA ≠ a → nodes w' !! a = nodes treeABC !! a) ∧
    trace w' = trace treeABC.
Proof.
  split; [reflexivity|]. split; [reflexivity|]. split; [absent_from_list|].
  apply (insertChildBefore_inserts_before_marker treeABC hA
           (nodeA [Some hB; Some hC]) (Some hD) (Some hC) [Some hB] []);
    [reflexivity | reflexivity | absent_from_list].
Defined.

Lemma addChild_appends_witness :
  nodes treeABC !! hA = Some (nodeA [Some hB; Some hC]) ∧
  ∃ w',
    addChild hA (Some hD) treeABC = Some w' ∧
    getChildren hA w' = Some [Some hB; Some hC; Some hD] ∧
    (last <$> getChildren hA w') = Some (Some (Some hD)).
Proof.
  split; [reflexivity|].
  apply (addChild_appends treeABC hA (nodeA [Some hB; Some hC]) (Some hD));
    reflexivity.
Defined.

Lemma setProps_creates_container_once_witness :
  nodes treeABC !! hA = Some (nodeA [Some hB; Some hC]) ∧
  _propsContainer (nodeA [Some hB; Some hC]) = None ∧
  ∃ c w1 wn,
    (c ∉ containers treeABC) ∧
    setProps hA 5 treeABC = Some w1 ∧
    getPropsContainer hA w1 = Some (Some c) ∧
    trace w1 = trace treeABC
                 ++ [EvDefineProperties hA c; EvContainerSetProps c 5] ∧
    setProps_seq hA [5; 6; 7] treeABC = Some wn ∧
    getPropsContainer hA wn = Some (Some c) ∧
    containers wn = {[c]} ∪ containers treeABC ∧
    trace wn = trace treeABC ++ EvDefineProperties hA c
                                  :: map (EvContainerSetProps c) [5; 6; 7] ∧
    defineProperties_calls hA wn = S (defineProperties_calls hA treeABC) ∧
    (∀ cmds w', run_commands cmds wn = Some w' →
       getPropsContainer hA w' = Some (Some c) ∧
       defineProperties_calls hA w' = S (defineProperties_calls hA treeABC)).
Proof.
  split; [reflexivity|]. split; [reflexivity|].
  apply (setProps_creates_container_once treeABC hA
           (nodeA [Some hB; Some hC]) 5 [6; 7]); reflexivity.
Defined.

Lemma setProps_preserves_children_witness :
  nodes treeABC !! hA = Some (nodeA [Some hB; Some hC]) ∧
  ∃ w',
    setProps hA 5 treeABC = Some w' ∧
    ∀ a, getChildren a w' = getChildren a treeABC.
Proof.
  split; [reflexivity|].
  apply (setProps_preserves_children treeABC hA (nodeA [Some hB; Some hC]) 5);
    reflexivity.
Defined.

Lemma structural_miss_returns_normally_witness :
  nodes treeABC !! hA = Some (nodeA [Some hB; Some hC]) ∧
  is_Some (nodes treeABC !! hD) ∧
  (Some hD ∉ _children (nodeA [Some hB; Some hC])) ∧
  (Some hE ∉ _children (nodeA [Some hB; Some hC])) ∧
  (∃ w', removeChild hA (Some hD) treeABC = Some w' ∧
         getChildren hA w' = Some [Some hB; Some hC] ∧
         dispose_log w' = dispose_log treeABC ++ [hD]) ∧
  (∃ w', insertChildBefore hA (Some hD) (Some hE) treeABC = Some w' ∧
         getChildren hA w' = Some [Some hB; Some hC; Some hD]).
Proof.
  split; [reflexivity|]. split; [by exists nodeD|].
  split; [simpl; absent_from_list|]. split; [simpl; absent_from_list|].
  apply (structural_miss_returns_normally treeABC hA hD
           (nodeA [Some hB; Some hC]) (Some hD) (Some hE));
    [reflexivity | by exists nodeD | simpl; absent_from_list
    | simpl; absent_from_list].
Defined.

Lemma insertChildBefore_absent_marker_appends_witness :
  nodes treeABC !! hA = Some (nodeA [Some hB; Some hC]) ∧
  (Some hE ∉ _children (nodeA [Some hB; Some hC])) ∧
  ∃ w',
    insertChildBefore hA (Some hD) (Some hE) treeABC = Some w' ∧
    getChildren hA w' = Some [Some hB; Some hC; Some hD].
Proof.
  split; [reflexivity|]. split; [simpl; absent_from_list|].
  apply (insertChildBefore_absent_marker_appends treeABC hA
           (nodeA [Some hB; Some hC]) (Some hD) (Some hE));
    [reflexivity | simpl; absent_from_list].
Defined.

Lemma addChild_unconditional_witness :
  nodes treeABC !! hA = Some (nodeA [Some hB; Some hC]) ∧
  ∃ w',
    addChild hA (Some hB) treeABC = Some w' ∧
    getChildren hA w' = Some [Some hB; Some hC; Some hB] ∧
    (occurrences (Some hB) <$> getChildren hA w')
      = Some (S (occurrences (Some hB) [Some hB; Some hC])) ∧
    (∀ a, hA ≠ a → getChildren a w' = getChildren a treeABC).
Proof.
  split; [reflexivity|].
  apply (addChild_unconditional treeABC hA (nodeA [Some hB; Some hC])
           (Some hB)); reflexivity.
Defined.

(** ** The constructor function and two scenarios *)

(** A node made by [createCtor] is new, has no children, and has had its
    first [setProps]: it holds a container and its hook has run. *)
Lemma createCtor_initializes (context : nat) (type : string) (props : Props)
    (w : World) :
  ∃ node c w',
    createCtor context type props w = Some (node, w') ∧
    nodes w !! node = None ∧
    getChildren node w' = Some [] ∧
    getPropsContainer node w' = Some (Some c) ∧
    trace w' = trace w ++ [EvDefineProperties node c;
                           EvContainerSetProps c props].
Proof.
  unfold createCtor.
  set (node := fresh (dom (nodes w))).
  set (w1 := mkWorld _ _ _ _).
  assert (nodes w1 !! node = Some (JsiDomNode_ctor context type)) as Hn1
    by apply lookup_insert_eq.
  rewrite (setProps_first w1 node _ props Hn1 eq_refl). simpl.
  exists node, (fresh (containers w)). eexists. split; [done|].
  split; [apply not_elem_of_dom, is_fresh|].
  unfold getChildren, getPropsContainer. simpl.
  rewrite lookup_alter_eq, lookup_insert_eq. simpl.
  repeat split. by rewrite <- app_assoc.
Qed.

(** [removeChild(A, B)] on the tree A[B, C]: the children of A are [C] and
    the callback of B has been invoked once. *)
Example removeChild_scenario :
  (w ← removeChild hA (Some hB) treeABC; Some (getChildren hA w, trace w))
    = Some (Some [Some hC], [EvDisposeCallback hB 11]).
Proof. by vm_compute. Qed.

(** Disposing the same node twice invokes its callback once. *)
Example dispose_twice_scenario :
  (w ← dispose_n 2 hB treeABC; Some (trace w))
    = Some [EvDisposeCallback hB 11].
Proof. by vm_compute. Qed.

Example demo_world_runs :
  run_requests demo_requests empty_world = Some demo_world ∧
  getChildren 0 demo_world = Some [Some 2] ∧
  trace demo_world =
    [EvDefineProperties 0 0; EvContainerSetProps 0 1;
     EvDefineProperties 1 1; EvContainerSetProps 1 2;
     EvDefineProperties 2 2; EvContainerSetProps 2 3;
     EvContainerSetProps 1 4; EvDisposeCallback 1 20].
Proof. by vm_compute. Qed.

(** ** The dispose callback over the life of a node *)

Lemma setDisposeCallback_live w this n cbo :
  nodes w !! this = Some n →
  setDisposeCallback this cbo w
    = Some (update_node (set_disposeCallback cbo) this w).
Proof. intros Hn. unfold setDisposeCallback. by rewrite Hn. Qed.

(** [setDisposeCallback] overwrites: whatever callback the node held
    before, the next [dispose] invokes the callback given last, and nothing
    when that one is empty.  The callback that was replaced is never
    invoked. *)
Theorem setDisposeCallback_overwrites (w : World) (this : nat)
    (n : JsiDomNode) (cbo : option Callback) :
  nodes w !! this = Some n →
  ∃ w1 w2,
    setDisposeCallback this cbo w = Some w1 ∧
    trace w1 = trace w ∧
    dispose this w1 = Some w2 ∧
    trace w2 = trace w ++ callback_events this cbo ∧
    (_disposeCallback <$> nodes w2 !! this) = Some None.
Proof.
  intros Hn. rewrite (setDisposeCallback_live w this n) by done.
  set (w1 := update_node _ this w).
  assert (nodes w1 !! this = Some (set_disposeCallback cbo n)) as Hn1
    by by apply lookup_update_node_eq.
  destruct (dispose_live w1 this _ Hn1) as (w2 & Hd & _ & Htr & _ & Hn2 & _).
  exists w1, w2. split; [done|]. split; [done|]. split; [done|].
  split; [done|]. by rewrite Hn2.
Qed.

(** A node that has been disposed can be armed again: after [dispose],
    a new [setDisposeCallback] makes the next [dispose] invoke the new
    callback, so a node's callbacks can run more than once over its life,
    once per registration. *)
Theorem dispose_rearm (w : World) (this : nat) (n : JsiDomNode)
    (cb cb' : Callback) :
  nodes w !! this = Some n →
  _disposeCallback n = Some cb →
  ∃ w1 w2 w3,
    dispose this w = Some w1 ∧
    setDisposeCallback this (Some cb') w1 = Some w2 ∧
    dispose this w2 = Some w3 ∧
    trace w3 = trace w ++ [EvDisposeCallback this cb;
                           EvDisposeCallback this cb'] ∧
    dispose_log w3 = dispose_log w ++ [this; this].
Proof.
  intros Hn Hcb.
  destruct (dispose_live w this n Hn) as (w1 & Hd & Hlog & Htr & _ & Hn1 & _).
  rewrite Hcb in Htr. simpl in Htr.
  pose proof (setDisposeCallback_live w1 this _ (Some cb') Hn1) as Hset.
  revert Hset. set (w2 := update_node _ this w1). intros Hset.
  assert (nodes w2 !! this
          = Some (set_disposeCallback (Some cb') (set_disposeCallback None n)))
    as Hn2 by by apply lookup_update_node_eq.
  destruct (dispose_live w2 this _ Hn2) as (w3 & Hd3 & Hlog3 & Htr3 & _).
  exists w1, w2, w3. split; [done|]. split; [done|]. split; [done|]. split.
  - rewrite Htr3. simpl. rewrite Htr. by rewrite <- app_assoc.
  - rewrite Hlog3. simpl. rewrite Hlog. by rewrite <- app_assoc.
Qed.

(** [dispose] is not recursive: it enters [dispose] on the receiver only,
    invokes no callback but the receiver's, and leaves every other node,
    the receiver's children among them, exactly as it was. *)
Theorem dispose_not_recursive (w : World) (this : nat) (n : JsiDomNode) :
  nodes w !! this = Some n →
  ∃ w',
    dispose this w = Some w' ∧
    dispose_log w' = dispose_log w ++ [this] ∧
    trace w' = trace w ++ callback_events this (_disposeCallback n) ∧
    getChildren this w' = Some (_children n) ∧
    (∀ a, this ≠ a → nodes w' !! a = nodes w !! a).
Proof.
  intros Hn.
  destruct (dispose_live w this n Hn) as (w' & Hd & Hlog & Htr & _ & Hn' & Hoth).
  exists w'. split; [done|]. split; [done|]. split; [done|]. split; [|done].
  unfold getChildren. by rewrite Hn'.
Qed.

(** ** Removing a child, composed with the other operations *)

(** Everything [removeChild] does, for a live receiver and a live child. *)
Lemma removeChild_effect w this child n nc :
  nodes w !! this = Some n → nodes w !! child = Some nc →
  ∃ w',
    removeChild this (Some child) w = Some w' ∧
    dispose_log w' = dispose_log w ++ [child] ∧
    trace w' = trace w ++ callback_events child (_disposeCallback nc) ∧
    (_disposeCallback <$> nodes w' !! child) = Some None ∧
    getChildren this w' = Some (filter (λ x, x ≠ Some child) (_children n)) ∧
    (∀ a, this ≠ a → getChildren a w' = getChildren a w) ∧
    (∀ a, this ≠ a → child ≠ a → nodes w' !! a = nodes w !! a).
Proof.
  intros Hn Hc.
  destruct (removeChild_children w this child n Hn (mk_is_Some _ _ Hc))
    as (w' & Hrun & Hch & Hoth).
  exists w'. split; [done|].
  rewrite (removeChild_unfold w this (Some child) n Hn) in Hrun.
  simpl in Hrun. revert Hrun.
  set (w1 := update_node _ this w). intros Hrun.
  assert (∃ nc1, nodes w1 !! child = Some nc1 ∧
                 _disposeCallback nc1 = _disposeCallback nc)
    as (nc1 & Hc1 & Hcb).
  { destruct (decide (this = child)) as [->|Hne].
    - eexists. split; [by apply lookup_update_node_eq|].
      rewrite Hn in Hc. by inversion Hc.
    - exists nc. split; [|done].
      unfold w1. by rewrite lookup_update_node_ne. }
  destruct (dispose_live w1 child nc1 Hc1)
    as (w2 & Hd & Hlog & Htrace & _ & Hthis & Hrest).
  rewrite Hrun in Hd. inversion Hd; subst w2.
  split; [done|]. split; [by rewrite Htrace, Hcb|].
  split; [by rewrite Hthis|]. split; [done|]. split; [done|].
  intros a Hne1 Hne2. rewrite Hrest by done.
  unfold w1. by rewrite lookup_update_node_ne.
Qed.

(** Removing the same child a second time changes no children list and
    invokes nothing: the callback ran at the first removal. *)
Theorem removeChild_twice (w : World) (this child : nat)
    (n nc : JsiDomNode) :
  nodes w !! this = Some n →
  nodes w !! child = Some nc →
  ∃ w1 w2,
    removeChild this (Some child) w = Some w1 ∧
    trace w1 = trace w ++ callback_events child (_disposeCallback nc) ∧
    removeChild this (Some child) w1 = Some w2 ∧
    trace w2 = trace w1 ∧
    (∀ a, getChildren a w2 = getChildren a w1).
Proof.
  intros Hn Hc.
  destruct (removeChild_effect w this child n nc Hn Hc)
    as (w1 & Hrun & _ & Htr & Hcb & Hch & _).
  assert (∃ n1, nodes w1 !! this = Some n1 ∧
                _children n1 = filter (λ x, x ≠ Some child) (_children n))
    as (n1 & Hn1 & Hch1).
  { unfold getChildren in Hch.
    destruct (nodes w1 !! this) as [n1|]; simpl in Hch; [|done].
    exists n1. split; [done|]. by inversion Hch. }
  assert (∃ nc1, nodes w1 !! child = Some nc1 ∧ _disposeCallback nc1 = None)
    as (nc1 & Hc1 & Hcb1).
  { destruct (nodes w1 !! child) as [nc1|]; simpl in Hcb; [|done].
    exists nc1. split; [done|]. by inversion Hcb. }
  destruct (removeChild_effect w1 this child n1 nc1 Hn1 Hc1)
    as (w2 & Hrun2 & _ & Htr2 & _ & Hch2 & Hoth2 & _).
  exists w1, w2. split; [done|]. split; [done|]. split; [done|]. split.
  - rewrite Htr2, Hcb1. simpl. by rewrite app_nil_r.
  - intros a. destruct (decide (this = a)) as [<-|Hne]; [|by apply Hoth2].
    rewrite Hch2, Hch, Hch1. f_equal.
    apply filter_ne_absent. intros Hin.
    apply list_elem_of_filter in Hin as [Hne _]. by apply Hne.
Qed.

(** A node listed under two parents: removing it from one parent disposes
    it although the other parent still lists it. *)
Theorem removeChild_disposes_shared_child (w : World)
    (this other child : nat) (n nother nc : JsiDomNode) :
  nodes w !! this = Some n →
  nodes w !! other = Some nother →
  nodes w !! child = Some nc →
  this ≠ other →
  Some child ∈ _children nother →
  ∃ w' children',
    removeChild this (Some child) w = Some w' ∧
    getChildren other w' = Some children' ∧
    Some child ∈ children' ∧
    (_disposeCallback <$> nodes w' !! child) = Some None ∧
    trace w' = trace w ++ callback_events child (_disposeCallback nc).
Proof.
  intros Hn Ho Hc Hne Hin.
  destruct (removeChild_effect w this child n nc Hn Hc)
    as (w' & Hrun & _ & Htr & Hcb & _ & Hoth & _).
  exists w', (_children nother). split; [done|]. split.
  - rewrite Hoth by done. unfold getChildren. by rewrite Ho.
  - done.
Qed.

Lemma filter_ne_vector_insert (x : Handle) (l : list Handle) (i : nat) :
  filter (λ y, y ≠ x) (vector_insert l i x) = filter (λ y, y ≠ x) l.
Proof.
  unfold vector_insert.
  rewrite filter_app, filter_cons_False by (intros ?; done).
  by rewrite <- filter_app, take_drop.
Qed.

(** Adding or inserting a child that was not in the list and then removing
    it gives the children list back, wherever it was inserted. *)
Theorem insert_then_removeChild_restores (w : World) (this child : nat)
    (n nc : JsiDomNode) (before : Handle) :
  nodes w !! this = Some n →
  nodes w !! child = Some nc →
  Some child ∉ _children n →
  (∃ w1 w2,
     addChild this (Some child) w = Some w1 ∧
     removeChild this (Some child) w1 = Some w2 ∧
     getChildren this w2 = Some (_children n)) ∧
  (∃ w1 w2,
     insertChildBefore this (Some child) before w = Some w1 ∧
     removeChild this (Some child) w1 = Some w2 ∧
     getChildren this w2 = Some (_children n)).
Proof.
  intros Hn Hc Habsent.
  assert (∀ v, filter (λ y, y ≠ Some child) v = _children n →
    ∃ w2, removeChild this (Some child)
            (update_node (set_children v) this w) = Some w2 ∧
          getChildren this w2 = Some (_children n)) as Hremove.
  { intros v Hv. set (w1 := update_node _ this w).
    assert (nodes w1 !! this = Some (set_children v n)) as Hn1
      by by apply lookup_update_node_eq.
    assert (is_Some (nodes w1 !! child)) as [nc1 Hc1].
    { destruct (decide (this = child)) as [<-|Hne]; [by eexists|].
      exists nc. unfold w1. by rewrite lookup_update_node_ne. }
    destruct (removeChild_effect w1 this child _ nc1 Hn1 Hc1)
      as (w2 & Hrun & _ & _ & _ & Hch & _).
    exists w2. split; [done|]. by rewrite Hch, <- Hv. }
  split.
  - unfold addChild. rewrite Hn. simpl.
    destruct (Hremove (vector_push_back (_children n) (Some child)))
      as (w2 & Hrun & Hch).
    { unfold vector_push_back.
      rewrite filter_app, filter_cons_False by (intros ?; done).
      by rewrite filter_nil, app_nil_r, filter_ne_absent. }
    by eexists _, w2.
  - unfold insertChildBefore. rewrite Hn. simpl.
    destruct (Hremove (vector_insert (_children n)
                         (std_find (_children n) before) (Some child)))
      as (w2 & Hrun & Hch).
    { by rewrite filter_ne_vector_insert, filter_ne_absent. }
    by eexists _, w2.
Qed.

(** ** Every method as a sequence of elementary changes *)

Lemma dispose_steps w this w' :
  dispose this w = Some w' → rtc command_step w w'.
Proof.
  unfold dispose. destruct (nodes w !! this) as [n|]; simpl; [|done].
  destruct (_disposeCallback n) as [cb|]; intros [= <-].
  - eapply rtc_l; [apply (step_enter_dispose this)|].
    eapply rtc_l; [apply (step_invoke this cb)|].
    apply rtc_once, step_callback.
  - apply rtc_once, step_enter_dispose.
Qed.

Lemma setProps_steps w this props w' :
  setProps this props w = Some w' → rtc command_step w w'.
Proof.
  intros Hrun.
  destruct (nodes w !! this) as [n|] eqn:Hn;
    [|unfold setProps in Hrun; by rewrite Hn in Hrun].
  destruct (_propsContainer n) as [c|] eqn:Hc.
  - rewrite (setProps_later w this n c) in Hrun by done.
    inversion Hrun; subst w'. apply rtc_once, step_container_setProps.
  - rewrite (setProps_first w this n) in Hrun by done.
    inversion Hrun; subst w'.
    eapply rtc_l; [by apply (step_new_container this n)|].
    apply rtc_once, step_container_setProps.
Qed.

Lemma run_command_steps cmd w w' :
  run_command cmd w = Some w' → rtc command_step w w'.
Proof.
  destruct cmd as [this props|this child|this child before|this child|this
                  |this cb]; simpl; intros Hrun.
  - by apply (setProps_steps w this props).
  - unfold addChild in Hrun.
    destruct (nodes w !! this) as [n|]; simpl in Hrun; [|done].
    inversion Hrun; subst w'. apply rtc_once, step_children.
  - unfold insertChildBefore in Hrun.
    destruct (nodes w !! this) as [n|]; simpl in Hrun; [|done].
    inversion Hrun; subst w'. apply rtc_once, step_children.
  - destruct (nodes w !! this) as [n|] eqn:Hn;
      [|unfold removeChild in Hrun; by rewrite Hn in Hrun].
    rewrite (removeChild_unfold w this child n Hn) in Hrun.
    destruct child as [c|]; simpl in Hrun; [|done].
    eapply rtc_l; [apply (step_children this)|].
    by apply (dispose_steps _ c).
  - by apply (dispose_steps w this).
  - unfold setDisposeCallback in Hrun.
    destruct (nodes w !! this) as [n|]; simpl in Hrun; [|done].
    inversion Hrun; subst w'. apply rtc_once, step_callback.
Qed.

(** No elementary change makes or destroys a node, or touches its type or
    its context. *)
Lemma command_step_identity w w' a :
  command_step w w' →
  ((λ n, (_context n, _type n)) <$> nodes w' !! a)
    = ((λ n, (_context n, _type n)) <$> nodes w !! a).
Proof.
  assert (∀ f b w0, (∀ n, (_context (f n), _type (f n)) = (_context n, _type n)) →
    ((λ n, (_context n, _type n)) <$> nodes (update_node f b w0) !! a)
      = ((λ n, (_context n, _type n)) <$> nodes w0 !! a)) as Hupd.
  { intros f b w0 Hf. destruct (decide (b = a)) as [->|Hne].
    - simpl. rewrite lookup_alter_eq.
      destruct (nodes w0 !! a) as [n|]; simpl; [|done]. by rewrite Hf.
    - by rewrite lookup_update_node_ne. }
  intros [b v w0|b cbo w0|b cb w0|c props w0|b w0|b n w0 Hn Hc]; try done.
  - by apply Hupd.
  - by apply Hupd.
  - simpl. by apply (Hupd _ b (make_shared_NodePropsContainer w0).2).
Qed.

Lemma rtc_command_step_identity w w' a :
  rtc command_step w w' →
  ((λ n, (_context n, _type n)) <$> nodes w' !! a)
    = ((λ n, (_context n, _type n)) <$> nodes w !! a).
Proof.
  induction 1 as [|w0 w1 w2 Hstep _ IH]; [done|].
  rewrite IH. by apply command_step_identity.
Qed.

Lemma rtc_command_step_live w w' a :
  rtc command_step w w' →
  is_Some (nodes w' !! a) ↔ is_Some (nodes w !! a).
Proof.
  intros Hsteps. apply (rtc_command_step_identity w w' a) in Hsteps.
  rewrite <- !(fmap_is_Some (λ n, (_context n, _type n))). by rewrite Hsteps.
Qed.

Lemma command_step_wf w w' :
  command_step w w' → containers_wf w → containers_wf w'.
Proof.
  intros Hstep (Halloc & Hinj & Hcalls).
  assert (∀ f b, (∀ n, _propsContainer (f n) = _propsContainer n) →
                 containers_wf (update_node f b w)) as Hupd.
  { intros f b Hf. split; [|split].
    - intros a c. rewrite getPropsContainer_update_node by done. apply Halloc.
    - intros a a' c. rewrite !getPropsContainer_update_node by done.
      apply Hinj.
    - intros a. rewrite getPropsContainer_update_node by done. apply Hcalls. }
  assert (∀ e, (∀ a, is_defineProperties_of a e = false) →
               containers_wf (emit e w)) as Hemit.
  { intros e He. split; [done|]. split; [done|].
    intros a. rewrite defineProperties_calls_emit by done. apply Hcalls. }
  destruct Hstep as [b v w|b cbo w|b cb w|c props w|b w|b n w Hn Hc].
  - by apply Hupd.
  - by apply Hupd.
  - by apply Hemit.
  - by apply Hemit.
  - done.
  - set (c := fresh (containers w)).
    assert (getPropsContainer b w = Some None) as Hb
      by (unfold getPropsContainer; by rewrite Hn; simpl; rewrite Hc).
    assert (∀ a, getPropsContainer a
                   (emit (EvDefineProperties b c)
                      (update_node (set_propsContainer (Some c)) b
                         (make_shared_NodePropsContainer w).2))
                 = if decide (b = a) then Some (Some c)
                   else getPropsContainer a w) as Hget.
    { intros a. unfold getPropsContainer. simpl. case_decide as Hba.
      - subst a. by rewrite lookup_alter_eq, Hn.
      - by rewrite lookup_alter_ne. }
    assert (∀ a, getPropsContainer a w ≠ Some (Some c)) as Hfresh.
    { intros a Ha. apply Halloc in Ha. by apply (is_fresh (containers w)). }
    split; [|split].
    + intros a c'. rewrite Hget. simpl. case_decide.
      * intros [= <-]. set_solver.
      * intros Ha. apply Halloc in Ha. set_solver.
    + intros a a' c'. rewrite !Hget.
      case_decide as Ha; case_decide as Ha'.
      * congruence.
      * intros [= <-] Hc'. by destruct (Hfresh a').
      * intros Hc' [= <-]. by destruct (Hfresh a).
      * apply Hinj.
    + intros a. rewrite Hget.
      unfold defineProperties_calls. simpl.
      rewrite filter_app, length_app.
      fold (defineProperties_calls a w). rewrite Hcalls.
      case_decide as Hba.
      * subst a. rewrite Hb.
        rewrite filter_cons_True by (simpl; by apply bool_decide_eq_true).
        done.
      * rewrite filter_cons_False; [simpl; lia|].
        simpl. rewrite bool_decide_eq_false_2 by done. done.
Qed.

Lemma rtc_command_step_wf w w' :
  rtc command_step w w' → containers_wf w → containers_wf w'.
Proof.
  induction 1 as [|w0 w1 w2 Hstep _ IH]; [done|].
  intros Hwf. by apply IH, (command_step_wf w0).
Qed.

Lemma new_node_wf a context type w :
  nodes w !! a = None → containers_wf w → containers_wf (new_node a context type w).
Proof.
  intros Ha (Halloc & Hinj & Hcalls).
  assert (getPropsContainer a w = None) as Hnone
    by (unfold getPropsContainer; by rewrite Ha).
  assert (∀ b, getPropsContainer b (new_node a context type w)
               = if decide (a = b) then Some None
                 else getPropsContainer b w) as Hget.
  { intros b. unfold getPropsContainer. simpl. case_decide as Hab.
    - subst b. by rewrite lookup_insert_eq.
    - by rewrite lookup_insert_ne. }
  split; [|split].
  - intros b c. rewrite Hget. case_decide; [done|]. apply Halloc.
  - intros b b' c. rewrite !Hget.
    case_decide; [done|]. case_decide; [done|]. apply Hinj.
  - intros b. rewrite Hget. unfold defineProperties_calls. simpl.
    fold (defineProperties_calls b w). rewrite Hcalls.
    case_decide as Hab; [|done]. subst b. by rewrite Hnone.
Qed.

(** [createCtor] is the construction of a node at an address that holds
    none, followed by [setProps]. *)
Lemma createCtor_unfold context type props w node w' :
  createCtor context type props w = Some (node, w') →
  nodes w !! node = None ∧
  setProps node props (new_node node context type w) = Some w'.
Proof.
  unfold createCtor. fold (new_node (fresh (dom (nodes w))) context type w).
  destruct (setProps _ _ _) as [w2|] eqn:Hset; simpl; [|done].
  intros [= <- <-]. split; [|done].
  apply not_elem_of_dom, is_fresh.
Qed.

Lemma run_request_wf r w w' :
  run_request r w = Some w' → containers_wf w → containers_wf w'.
Proof.
  destruct r as [context type props|cmd]; simpl; intros Hrun Hwf.
  - destruct (createCtor context type props w) as [[node w2]|] eqn:Hc;
      simpl in Hrun; [|done].
    inversion Hrun; subst w2.
    apply createCtor_unfold in Hc as [Hfresh Hset].
    apply setProps_steps in Hset.
    apply (rtc_command_step_wf _ _ Hset). by apply new_node_wf.
  - apply run_command_steps in Hrun. by apply (rtc_command_step_wf w).
Qed.

Lemma run_request_identity r w w' a n :
  run_request r w = Some w' →
  nodes w !! a = Some n →
  ∃ n', nodes w' !! a = Some n' ∧
        _type n' = _type n ∧ _context n' = _context n.
Proof.
  assert (∀ w0 w1, rtc command_step w0 w1 → nodes w0 !! a = Some n →
            ∃ n', nodes w1 !! a = Some n' ∧
                  _type n' = _type n ∧ _context n' = _context n) as Hsteps.
  { intros w0 w1 Hs Ha. apply (rtc_command_step_identity w0 w1 a) in Hs.
    rewrite Ha in Hs. simpl in Hs.
    destruct (nodes w1 !! a) as [n'|]; simpl in Hs; [|done].
    exists n'. split; [done|]. by inversion Hs. }
  destruct r as [context type props|cmd]; simpl; intros Hrun Ha.
  - destruct (createCtor context type props w) as [[node w2]|] eqn:Hc;
      simpl in Hrun; [|done].
    inversion Hrun; subst w2.
    apply createCtor_unfold in Hc as [Hfresh Hset].
    apply setProps_steps in Hset. apply (Hsteps _ _ Hset). simpl.
    rewrite lookup_insert_ne; [done|]. intros ->. congruence.
  - apply run_command_steps in Hrun. by apply (Hsteps w w').
Qed.

Lemma run_request_initialized r w w' :
  run_request r w = Some w' → all_initialized w → all_initialized w'.
Proof.
  destruct r as [context type props|cmd]; simpl; intros Hrun Hinit a Ha.
  - destruct (createCtor_initializes context type props w)
      as (node & c & w2 & Hc & Hfresh & _ & Hcont & _).
    rewrite Hc in Hrun. simpl in Hrun. inversion Hrun; subst w2.
    destruct (decide (node = a)) as [<-|Hne]; [by exists c|].
    apply createCtor_unfold in Hc as [_ Hset].
    pose proof (setProps_steps _ _ _ _ Hset) as Hsteps.
    apply (rtc_command_step_live _ _ a) in Hsteps.
    apply Hsteps in Ha. simpl in Ha. rewrite lookup_insert_ne in Ha by done.
    destruct (Hinit a Ha) as [c' Hc'].
    exists c'.
    apply (run_command_keeps_container (CSetProps node props)
             (new_node node context type w) w' a c'); [|done].
    unfold getPropsContainer. simpl. by rewrite lookup_insert_ne.
  - pose proof (run_command_steps _ _ _ Hrun) as Hsteps.
    apply (rtc_command_step_live _ _ a) in Hsteps. apply Hsteps in Ha.
    destruct (Hinit a Ha) as [c Hc]. exists c.
    by apply (run_command_keeps_container cmd w w' a c).
Qed.

Lemma run_requests_invariants rs : ∀ w w',
  run_requests rs w = Some w' →
  (containers_wf w → containers_wf w') ∧
  (all_initialized w → all_initialized w') ∧
  (∀ a n, nodes w !! a = Some n →
     ∃ n', nodes w' !! a = Some n' ∧
           _type n' = _type n ∧ _context n' = _context n).
Proof.
  induction rs as [|r rest IH]; intros w w' Hrun; simpl in Hrun.
  - inversion Hrun; subst w'. split; [done|]. split; [done|].
    intros a n Ha. by exists n.
  - destruct (run_request r w) as [w1|] eqn:Hr; simpl in Hrun; [|done].
    destruct (IH w1 w' Hrun) as (Hwf & Hinit & Hid).
    split; [|split].
    + intros H. by apply Hwf, (run_request_wf r w).
    + intros H. by apply Hinit, (run_request_initialized r w).
    + intros a n Ha.
      destruct (run_request_identity r w w1 a n Hr Ha)
        as (n1 & Ha1 & Hty1 & Hctx1).
      destruct (Hid a n1 Ha1) as (n' & Ha' & Hty & Hctx).
      exists n'. split; [done|]. split; congruence.
Qed.

Lemma empty_world_wf : containers_wf empty_world ∧ all_initialized empty_world.
Proof.
  split; [split; [|split]|].
  - intros a c. unfold getPropsContainer. simpl. by rewrite lookup_empty.
  - intros a b c. unfold getPropsContainer. simpl. by rewrite lookup_empty.
  - intros a. unfold getPropsContainer. simpl. by rewrite lookup_empty.
  - intros a [n Ha]. simpl in Ha. by rewrite lookup_empty in Ha.
Qed.

(** ** What holds of every node, whatever the reconciler sends *)

(** The type and the context of a node are fixed at construction: no
    request changes them, and no request makes a live node go away. *)
Theorem type_and_context_never_change (rs : list Request) (w w' : World)
    (a : nat) (n : JsiDomNode) :
  run_requests rs w = Some w' →
  nodes w !! a = Some n →
  is_Some (nodes w' !! a) ∧
  getType a w' = Some (_type n) ∧
  getContext a w' = Some (_context n).
Proof.
  intros Hrun Ha.
  destruct (run_requests_invariants rs w w' Hrun) as (_ & _ & Hid).
  destruct (Hid a n Ha) as (n' & Ha' & Hty & Hctx).
  unfold getType, getContext. rewrite Ha'. simpl.
  split; [by eexists|]. split; congruence.
Qed.

(** In a store built by the constructor function and commands only, every
    node holds a properties container that is allocated, and its
    [defineProperties] hook has been called exactly once, however many
    requests were served. *)
Theorem defineProperties_once_per_created_node (rs : list Request)
    (w : World) (a : nat) :
  run_requests rs empty_world = Some w →
  is_Some (nodes w !! a) →
  defineProperties_calls a w = 1 ∧
  ∃ c, getPropsContainer a w = Some (Some c) ∧ c ∈ containers w.
Proof.
  intros Hrun Ha.
  destruct (run_requests_invariants rs empty_world w Hrun) as (Hwf & Hinit & _).
  destruct empty_world_wf as [Hwf0 Hinit0].
  destruct (Hwf Hwf0) as (Halloc & _ & Hcalls).
  destruct (Hinit Hinit0 a Ha) as [c Hc].
  split.
  - by rewrite Hcalls, Hc.
  - exists c. split; [done|]. by apply (Halloc a).
Qed.

(** In such a store no two nodes hold the same properties container. *)
Theorem propsContainer_not_shared (rs : list Request) (w : World)
    (a b c : nat) :
  run_requests rs empty_world = Some w →
  getPropsContainer a w = Some (Some c) →
  getPropsContainer b w = Some (Some c) →
  a = b.
Proof.
  intros Hrun Ha Hb.
  destruct (run_requests_invariants rs empty_world w Hrun) as (Hwf & _ & _).
  destruct empty_world_wf as [Hwf0 _].
  destruct (Hwf Hwf0) as (_ & Hinj & _). by apply (Hinj a b c).
Qed.


(** ** The [children] host function *)

Lemma children_loop_live addrs : ∀ index array w,
  Forall (λ a, is_Some (nodes w !! a)) addrs →
  index + length addrs ≤ length array →
  children_loop (Some <$> addrs) index array w
    = Some (take index array ++ (JsHostObject <$> addrs)
              ++ drop (index + length addrs) array).
Proof.
  induction addrs as [|a addrs IH]; intros index array w Hlive Hlen; simpl.
  - rewrite Nat.add_0_r. by rewrite take_drop.
  - apply Forall_cons in Hlive as [[n Ha] Hlive].
    unfold asHostObject. rewrite Ha. simpl.
    unfold setValueAtIndex. simpl in Hlen.
    rewrite decide_True by lia. simpl.
    rewrite IH by (rewrite ?length_insert; done || lia).
    f_equal.
    rewrite (take_S_r _ index (JsHostObject a))
      by (apply list_lookup_insert_eq; lia).
    rewrite take_insert_ge by lia.
    rewrite drop_insert_lt by lia.
    rewrite <- app_assoc. simpl.
    by rewrite Nat.add_succ_r.
Qed.

Lemma children_loop_null unread : ∀ index array w,
  None ∈ unread → children_loop unread index array w = None.
Proof.
  induction unread as [|child rest IH]; intros index array w Hin.
  - by apply elem_of_nil in Hin.
  - simpl. destruct child as [c|]; simpl; [|done].
    apply elem_of_cons in Hin as [Heq|Hin]; [done|].
    destruct (asHostObject c w) as [v|]; simpl; [|done].
    destruct (setValueAtIndex array index v) as [array'|]; simpl; [|done].
    by apply IH.
Qed.

(** When every child handle is the address of a live node, [children]
    returns an array with one host object per child, in the order of the
    children list: the loop sets every slot and none twice. *)
Theorem children_returns_all_in_order (w : World) (this : nat)
    (n : JsiDomNode) (addrs : list nat) :
  nodes w !! this = Some n →
  _children n = Some <$> addrs →
  Forall (λ a, is_Some (nodes w !! a)) addrs →
  children this w = Some (JsHostObject <$> addrs).
Proof.
  intros Hn Hch Hlive. unfold children. rewrite Hn. simpl.
  rewrite Hch, length_fmap.
  rewrite children_loop_live by (unfold jsi_Array; rewrite ?length_replicate; done).
  simpl. rewrite drop_ge; [by rewrite app_nil_r|].
  unfold jsi_Array. by rewrite length_replicate.
Qed.

(** [addChild] takes a null handle as it takes any other and stores it;
    from then on [children] dereferences the null handle and has no
    defined result. *)
Theorem children_undefined_after_null_addChild (w : World) (this : nat)
    (n : JsiDomNode) :
  nodes w !! this = Some n →
  ∃ w',
    addChild this None w = Some w' ∧
    getChildren this w' = Some (_children n ++ [None]) ∧
    children this w' = None.
Proof.
  intros Hn. unfold addChild. rewrite Hn. simpl.
  eexists. split; [done|].
  split; [by rewrite (getChildren_set_children w this n)|].
  unfold children. rewrite (lookup_update_node_eq _ _ _ n) by done. simpl.
  apply children_loop_null. unfold vector_push_back.
  apply elem_of_app. right. by left.
Qed.

(** ** The children list against its reading on plain lists *)

Lemma vector_insert_std_find (child before : Handle) (l : list Handle) :
  vector_insert l (std_find l before) child
    = spec_insert_before child before l.
Proof.
  induction l as [|y l IH]; simpl; [done|].
  case_decide; [done|].
  unfold vector_insert in *. simpl. by rewrite IH.
Qed.

Lemma getChildren_update_node_keep f this a w :
  (∀ n, _children (f n) = _children n) →
  getChildren a (update_node f this w) = getChildren a w.
Proof.
  intros Hf. unfold getChildren.
  destruct (decide (this = a)) as [<-|Hne].
  - simpl. rewrite lookup_alter_eq.
    destruct (nodes w !! this) as [n|]; simpl; [|done]. by rewrite Hf.
  - by rewrite lookup_update_node_ne.
Qed.

Lemma setProps_getChildren w this props w' :
  setProps this props w = Some w' → ∀ a, getChildren a w' = getChildren a w.
Proof.
  intros Hrun a.
  destruct (nodes w !! this) as [n|] eqn:Hn;
    [|unfold setProps in Hrun; by rewrite Hn in Hrun].
  destruct (_propsContainer n) as [c|] eqn:Hc.
  - rewrite (setProps_later w this n c) in Hrun by done.
    by inversion Hrun; subst w'.
  - rewrite (setProps_first w this n) in Hrun by done.
    inversion Hrun; subst w'.
    by apply (getChildren_update_node_keep _ this a
                (make_shared_NodePropsContainer w).2).
Qed.

Lemma run_command_children cmd w w' this l :
  run_command cmd w = Some w' →
  getChildren this w = Some l →
  getChildren this w' = Some (spec_apply_command this l cmd).
Proof.
  intros Hrun Hl.
  assert (∀ p n v, nodes w !! p = Some n →
            getChildren this (update_node (set_children v) p w)
              = Some (if decide (p = this) then v else l)) as Hset.
  { intros p n v Hp. case_decide as Hpt.
    - subst p. by apply (getChildren_set_children w this n).
    - by rewrite getChildren_update_node_ne. }
  assert (∀ p n, nodes w !! p = Some n → p = this → _children n = l) as Hsame.
  { intros p n Hp ->. unfold getChildren in Hl. rewrite Hp in Hl.
    by inversion Hl. }
  destruct cmd as [p props|p child|p child before|p child|p|p cb];
    simpl in Hrun; simpl.
  - by rewrite (setProps_getChildren w p props w' Hrun).
  - unfold addChild in Hrun.
    destruct (nodes w !! p) as [n|] eqn:Hp; simpl in Hrun; [|done].
    inversion Hrun; subst w'. rewrite (Hset p n) by done.
    case_decide; [|done]. by rewrite (Hsame p n).
  - unfold insertChildBefore in Hrun.
    destruct (nodes w !! p) as [n|] eqn:Hp; simpl in Hrun; [|done].
    inversion Hrun; subst w'. rewrite (Hset p n) by done.
    case_decide; [|done].
    by rewrite vector_insert_std_find, (Hsame p n).
  - destruct (nodes w !! p) as [n|] eqn:Hp;
      [|unfold removeChild in Hrun; by rewrite Hp in Hrun].
    rewrite (removeChild_unfold w p child n Hp) in Hrun.
    destruct child as [c|]; simpl in Hrun; [|done].
    rewrite (dispose_getChildren _ _ _ Hrun), (Hset p n) by done.
    case_decide; [|done]. by rewrite (Hsame p n).
  - by rewrite (dispose_getChildren _ _ _ Hrun).
  - unfold setDisposeCallback in Hrun.
    destruct (nodes w !! p) as [n|]; simpl in Hrun; [|done].
    inversion Hrun; subst w'. by rewrite getChildren_update_node_keep.
Qed.

(** After any sequence of commands that returns, the children list of a
    node is what the structural commands addressed to that node give on a
    plain list, in order: append, insert before the first marker or at the
    end, delete all occurrences.  Commands on other nodes, property batches
    and disposals do not touch it. *)
Theorem children_follow_list_simulation (cmds : list Command)
    (w w' : World) (this : nat) (l : list Handle) :
  run_commands cmds w = Some w' →
  getChildren this w = Some l →
  getChildren this w' = Some (foldl (spec_apply_command this) l cmds).
Proof.
  revert w l. induction cmds as [|cmd rest IH]; intros w l Hrun Hl;
    simpl in Hrun; simpl.
  - by inversion Hrun; subst w'.
  - destruct (run_command cmd w) as [w1|] eqn:Hcmd; simpl in Hrun; [|done].
    apply (IH w1); [done|]. by apply (run_command_children cmd w).
Qed.

(** ** Callback invocations against registrations *)

Lemma armed_update_node_keep f this a w :
  (∀ n, _disposeCallback (f n) = _disposeCallback n) →
  armed a (update_node f this w) = armed a w.
Proof.
  intros Hf. unfold armed.
  destruct (decide (this = a)) as [<-|Hne].
  - simpl. rewrite lookup_alter_eq.
    destruct (nodes w !! this) as [n|]; simpl; [|done]. by rewrite Hf.
  - by rewrite lookup_update_node_ne.
Qed.

Lemma callback_invocations_emit a e w :
  is_disposeCallback_of a e = false →
  callback_invocations a (emit e w) = callback_invocations a w.
Proof.
  intros He. unfold callback_invocations. simpl.
  rewrite filter_app, filter_cons_False by (rewrite He; done).
  by rewrite filter_nil, app_nil_r.
Qed.

(** [dispose] turns a held callback into one invocation. *)
Lemma dispose_invocations w this w' a :
  dispose this w = Some w' →
  callback_invocations a w' + armed a w'
    = callback_invocations a w + armed a w.
Proof.
  intros Hd. destruct (nodes w !! this) as [n|] eqn:Hn;
    [|unfold dispose in Hd; by rewrite Hn in Hd].
  destruct (dispose_live w this n Hn) as (w2 & Hd2 & _ & Htr & _ & Hn' & Hoth).
  rewrite Hd in Hd2. inversion Hd2; subst w2.
  unfold callback_invocations, armed. rewrite Htr, filter_app, length_app.
  destruct (decide (this = a)) as [<-|Hne].
  - rewrite Hn', Hn. simpl.
    destruct (_disposeCallback n) as [cb|]; simpl; [|lia].
    rewrite filter_cons_True by (simpl; by apply bool_decide_eq_true).
    simpl. lia.
  - rewrite Hoth by done.
    destruct (_disposeCallback n) as [cb|]; simpl; [|lia].
    rewrite filter_cons_False; [simpl; lia|].
    simpl. by rewrite bool_decide_eq_false_2.
Qed.

Lemma run_command_invocations cmd w w' a :
  run_command cmd w = Some w' →
  callback_invocations a w' + armed a w'
    ≤ callback_invocations a w + armed a w
      + (if is_registration a cmd then 1 else 0).
Proof.
  destruct cmd as [p props|p child|p child before|p child|p|p cb];
    simpl; intros Hrun.
  - destruct (nodes w !! p) as [n|] eqn:Hn;
      [|unfold setProps in Hrun; by rewrite Hn in Hrun].
    destruct (_propsContainer n) as [c|] eqn:Hc.
    + rewrite (setProps_later w p n c) in Hrun by done.
      inversion Hrun; subst w'.
      rewrite callback_invocations_emit by done. unfold armed. simpl. lia.
    + rewrite (setProps_first w p n) in Hrun by done.
      inversion Hrun; subst w'.
      rewrite !callback_invocations_emit by done.
      pose proof (armed_update_node_keep
                    (set_propsContainer (Some (fresh (containers w)))) p a
                    (make_shared_NodePropsContainer w).2 (λ _, eq_refl)) as Ha.
      unfold armed in *. simpl in *. rewrite Ha.
      unfold callback_invocations. simpl. lia.
  - unfold addChild in Hrun.
    destruct (nodes w !! p) as [n|]; simpl in Hrun; [|done].
    inversion Hrun; subst w'. rewrite armed_update_node_keep by done.
    unfold callback_invocations. simpl. lia.
  - unfold insertChildBefore in Hrun.
    destruct (nodes w !! p) as [n|]; simpl in Hrun; [|done].
    inversion Hrun; subst w'. rewrite armed_update_node_keep by done.
    unfold callback_invocations. simpl. lia.
  - destruct (nodes w !! p) as [n|] eqn:Hn;
      [|unfold removeChild in Hrun; by rewrite Hn in Hrun].
    rewrite (removeChild_unfold w p child n Hn) in Hrun.
    destruct child as [c|]; simpl in Hrun; [|done].
    rewrite (dispose_invocations _ c w' a Hrun).
    rewrite armed_update_node_keep by done.
    unfold callback_invocations. simpl. lia.
  - rewrite (dispose_invocations w p w' a Hrun). lia.
  - unfold setDisposeCallback in Hrun.
    destruct (nodes w !! p) as [n|] eqn:Hn; simpl in Hrun; [|done].
    inversion Hrun; subst w'.
    assert (callback_invocations a (update_node (set_disposeCallback cb) p w)
            = callback_invocations a w) as -> by done.
    destruct (decide (p = a)) as [<-|Hne].
    + unfold armed. simpl. rewrite lookup_alter_eq, Hn. simpl.
      destruct cb as [f|]; simpl.
      * rewrite bool_decide_eq_true_2 by done.
        destruct (_disposeCallback n); lia.
      * lia.
    + unfold armed. rewrite lookup_update_node_ne by done.
      destruct cb as [f|]; simpl; [|lia].
      rewrite bool_decide_eq_false_2 by done. lia.
Qed.

(** Over any sequence of commands, the callbacks of a node are invoked at
    most once for the callback it held at the start and once for each
    callback registered since; a callback still held at the end has not
    been counted as invoked. *)
Theorem callback_invocations_bounded (cmds : list Command) (w w' : World)
    (a : nat) :
  run_commands cmds w = Some w' →
  callback_invocations a w' + armed a w'
    ≤ callback_invocations a w + armed a w + registrations a cmds.
Proof.
  revert w. induction cmds as [|cmd rest IH]; intros w Hrun; simpl in Hrun.
  - inversion Hrun; subst w'. lia.
  - destruct (run_command cmd w) as [w1|] eqn:Hcmd; simpl in Hrun; [|done].
    pose proof (run_command_invocations cmd w w1 a Hcmd) as H1.
    pose proof (IH w1 Hrun) as H2.
    unfold registrations in *.
    destruct (is_registration a cmd) eqn:Hreg.
    + rewrite filter_cons_True by done. simpl. lia.
    + rewrite filter_cons_False by (rewrite Hreg; done). lia.
Qed.

(** ** These theorems at the scene *)

Lemma setDisposeCallback_overwrites_witness :
  nodes treeABC !! hB = Some nodeB ∧
  ∃ w1 w2,
    setDisposeCallback hB (Some 99) treeABC = Some w1 ∧
    trace w1 = trace treeABC ∧
    dispose hB w1 = Some w2 ∧
    trace w2 = trace treeABC ++ [EvDisposeCallback hB 99] ∧
    (_disposeCallback <$> nodes w2 !! hB) = Some None.
Proof.
  split; [reflexivity|].
  apply (setDisposeCallback_overwrites treeABC hB nodeB (Some 99));
    reflexivity.
Defined.

Lemma dispose_rearm_witness :
  nodes treeABC !! hB = Some nodeB ∧
  _disposeCallback nodeB = Some 11 ∧
  ∃ w1 w2 w3,
    dispose hB treeABC = Some w1 ∧
    setDisposeCallback hB (Some 99) w1 = Some w2 ∧
    dispose hB w2 = Some w3 ∧
    trace w3 = trace treeABC ++ [EvDisposeCallback hB 11;
                                 EvDisposeCallback hB 99] ∧
    dispose_log w3 = dispose_log treeABC ++ [hB; hB].
Proof.
  split; [reflexivity|]. split; [reflexivity|].
  apply (dispose_rearm treeABC hB nodeB 11 99); reflexivity.
Defined.

Lemma dispose_not_recursive_witness :
  nodes treeABC !! hA = Some (nodeA [Some hB; Some hC]) ∧
  ∃ w',
    dispose hA treeABC = Some w' ∧
    dispose_log w' = dispose_log treeABC ++ [hA] ∧
    trace w' = trace treeABC ++ [EvDisposeCallback hA 10] ∧
    getChildren hA w' = Some [Some hB; Some hC] ∧
    (∀ a, hA ≠ a → nodes w' !! a = nodes treeABC !! a).
Proof.
  split; [reflexivity|].
  apply (dispose_not_recursive treeABC hA (nodeA [Some hB; Some hC]));
    reflexivity.
Defined.

Lemma removeChild_twice_witness :
  nodes treeABC !! hA = Some (nodeA [Some hB; Some hC]) ∧
  nodes treeABC !! hB = Some nodeB ∧
  ∃ w1 w2,
    removeChild hA (Some hB) treeABC = Some w1 ∧
    trace w1 = trace treeABC ++ [EvDisposeCallback hB 11] ∧
    removeChild hA (Some hB) w1 = Some w2 ∧
    trace w2 = trace w1 ∧
    (∀ a, getChildren a w2 = getChildren a w1).
Proof.
  split; [reflexivity|]. split; [reflexivity|].
  apply (removeChild_twice treeABC hA hB (nodeA [Some hB; Some hC]) nodeB);
    reflexivity.
Defined.

Lemma removeChild_disposes_shared_child_witness :
  nodes sharedB !! hA = Some (nodeA [Some hB; Some hC]) ∧
  nodes sharedB !! hD = Some (mkJsiDomNode 0 [Some hB] None "skPath" (Some 13)) ∧
  nodes sharedB !! hB = Some nodeB ∧
  hA ≠ hD ∧
  Some hB ∈ [Some hB] ∧
  ∃ w' children',
    removeChild hA (Some hB) sharedB = Some w' ∧
    getChildren hD w' = Some children' ∧
    Some hB ∈ children' ∧
    (_disposeCallback <$> nodes w' !! hB) = Some None ∧
    trace w' = trace sharedB ++ [EvDisposeCallback hB 11].
Proof.
  split; [reflexivity|]. split; [reflexivity|]. split; [reflexivity|].
  split; [discriminate|]. split; [by left|].
  apply (removeChild_disposes_shared_child sharedB hA hD hB
           (nodeA [Some hB; Some hC])
           (mkJsiDomNode 0 [Some hB] None "skPath" (Some 13)) nodeB);
    [reflexivity | reflexivity | reflexivity | discriminate | by left].
Defined.

Lemma insert_then_removeChild_restores_witness :
  nodes treeABC !! hA = Some (nodeA [Some hB; Some hC]) ∧
  nodes treeABC !! hD = Some nodeD ∧
  (Some hD ∉ _children (nodeA [Some hB; Some hC])) ∧
  (∃ w1 w2,
     addChild hA (Some hD) treeABC = Some w1 ∧
     removeChild hA (Some hD) w1 = Some w2 ∧
     getChildren hA w2 = Some [Some hB; Some hC]) ∧
  (∃ w1 w2,
     insertChildBefore hA (Some hD) (Some hC) treeABC = Some w1 ∧
     removeChild hA (Some hD) w1 = Some w2 ∧
     getChildren hA w2 = Some [Some hB; Some hC]).
Proof.
  split; [reflexivity|]. split; [reflexivity|].
  split; [simpl; absent_from_list|].
  apply (insert_then_removeChild_restores treeABC hA hD
           (nodeA [Some hB; Some hC]) nodeD (Some hC));
    [reflexivity | reflexivity | simpl; absent_from_list].
Defined.

Lemma type_and_context_never_change_witness :
  run_requests mixed_requests treeABC = Some mixed_world ∧
  nodes treeABC !! hB = Some nodeB ∧
  is_Some (nodes mixed_world !! hB) ∧
  getType hB mixed_world = Some "skCircle" ∧
  getContext hB mixed_world = Some 0.
Proof.
  split; [by vm_compute|]. split; [reflexivity|].
  apply (type_and_context_never_change mixed_requests treeABC mixed_world
           hB nodeB); [by vm_compute | reflexivity].
Defined.

Lemma defineProperties_once_per_created_node_witness :
  run_requests demo_requests empty_world = Some demo_world ∧
  is_Some (nodes demo_world !! 1) ∧
  defineProperties_calls 1 demo_world = 1 ∧
  ∃ c, getPropsContainer 1 demo_world = Some (Some c) ∧
       c ∈ containers demo_world.
Proof.
  split; [by vm_compute|]. split; [eexists; by vm_compute|].
  apply (defineProperties_once_per_created_node demo_requests demo_world 1);
    [by vm_compute | eexists; by vm_compute].
Defined.

Lemma propsContainer_not_shared_witness :
  run_requests demo_requests empty_world = Some demo_world ∧
  getPropsContainer 1 demo_world = Some (Some 1) ∧
  1 = 1.
Proof.
  split; [by vm_compute|]. split; [by vm_compute|].
  apply (propsContainer_not_shared demo_requests demo_world 1 1 1);
    by vm_compute.
Defined.

Lemma children_returns_all_in_order_witness :
  nodes treeABC !! hA = Some (nodeA [Some hB; Some hC]) ∧
  _children (nodeA [Some hB; Some hC]) = Some <$> [hB; hC] ∧
  Forall (λ a, is_Some (nodes treeABC !! a)) [hB; hC] ∧
  children hA treeABC = Some [JsHostObject hB; JsHostObject hC].
Proof.
  assert (Forall (λ a, is_Some (nodes treeABC !! a)) [hB; hC]) as Hlive.
  { repeat constructor; eexists; reflexivity. }
  split; [reflexivity|]. split; [reflexivity|]. split; [exact Hlive|].
  apply (children_returns_all_in_order treeABC hA
           (nodeA [Some hB; Some hC]) [hB; hC]);
    [reflexivity | reflexivity | exact Hlive].
Defined.

Lemma children_undefined_after_null_addChild_witness :
  nodes treeABC !! hA = Some (nodeA [Some hB; Some hC]) ∧
  ∃ w',
    addChild hA None treeABC = Some w' ∧
    getChildren hA w' = Some [Some hB; Some hC; None] ∧
    children hA w' = None.
Proof.
  split; [reflexivity|].
  apply (children_undefined_after_null_addChild treeABC hA
           (nodeA [Some hB; Some hC])); reflexivity.
Defined.

Lemma children_follow_list_simulation_witness :
  run_commands sim_commands treeABC = Some sim_world ∧
  getChildren hA treeABC = Some [Some hB; Some hC] ∧
  getChildren hA sim_world = Some [Some hE; Some hC; Some hD].
Proof.
  split; [by vm_compute|]. split; [reflexivity|].
  apply (children_follow_list_simulation sim_commands treeABC sim_world hA
           [Some hB; Some hC]); [by vm_compute | reflexivity].
Defined.

Lemma callback_invocations_bounded_witness :
  run_commands rearm_commands treeABC = Some rearm_world ∧
  callback_invocations hB rearm_world + armed hB rearm_world
    ≤ callback_invocations hB treeABC + armed hB treeABC
      + registrations hB rearm_commands.
Proof.
  split; [by vm_compute|].
  apply (callback_invocations_bounded rearm_commands treeABC rearm_world hB);
    by vm_compute.
Defined.
